(** * Thai national ID card reader: protocol layer and field decoders

    A shallow embedding of [src/thai-id-card-reader.ts],
    [src/applets/personal-applet.ts], [src/applets/nhso-applet.ts],
    [src/utils/reader.ts] and the two APDU catalogues, followed by the
    theorems that settle what the specification says about them.

    Conventions.
    - A JavaScript string is the list of its UTF-16 code units ([jsstring]).
    - A [Buffer] and a [number[]] of command bytes are lists of [byte].
    - A JavaScript object used as a record with optional keys is a [gmap]
      from property names to values; object spread is map union.
    - Asynchronous code is sequential here: every [await] is a bind of the
      monad [M], which threads the card and the trace of observable effects
      and keeps both when an exception is thrown. *)

From Stdlib Require Import List ZArith NArith Lia Bool String Ascii DecimalString.
From Stdlib.Strings Require Import Byte.
From stdpp Require Import base gmap strings.
Import ListNotations.

Set Implicit Arguments.

(** ** JavaScript values used by the program *)

Definition jsstring := list N.
Definition Buffer := list byte.

(** The UTF-16 code units of a code point. *)
Definition codeUnits (cp : N) : jsstring :=
  if (cp <? 65536)%N then [cp]
  else [(55296 + (cp - 65536) / 1024)%N; (56320 + (cp - 65536) mod 1024)%N].

(** [buf.toString()] ([buf.toString('utf8')]): the UTF-8 decoder of the
    Encoding Standard. [needed] continuation bytes are outstanding for the
    code point begun in [cp], and the next one must lie in [lower..upper];
    a byte that cannot start or continue a sequence gives U+FFFD, and a byte
    that breaks a sequence is read again as the start of the next one. *)
Fixpoint decodeUtf8 (needed : nat) (cp lower upper : N) (bs : list byte)
  : jsstring :=
  match bs with
  | [] => match needed with O => [] | S _ => [65533%N] end
  | b :: r =>
      let n := Byte.to_N b in
      let start (before : jsstring) : jsstring :=
        if (n <? 128)%N then before ++ n :: decodeUtf8 0 0 128 191 r
        else if (194 <=? n)%N && (n <=? 223)%N then
          before ++ decodeUtf8 1 (n mod 32) 128 191 r
        else if (224 <=? n)%N && (n <=? 239)%N then
          before ++ decodeUtf8 2 (n mod 16)
                      (if (n =? 224)%N then 160 else 128)
                      (if (n =? 237)%N then 159 else 191) r
        else if (240 <=? n)%N && (n <=? 244)%N then
          before ++ decodeUtf8 3 (n mod 8)
                      (if (n =? 240)%N then 144 else 128)
                      (if (n =? 244)%N then 143 else 191) r
        else before ++ 65533%N :: decodeUtf8 0 0 128 191 r in
      match needed with
      | O => start []
      | S k =>
          if (lower <=? n)%N && (n <=? upper)%N then
            let cp' := (cp * 64 + n mod 64)%N in
            match k with
            | O => codeUnits cp' ++ decodeUtf8 0 0 128 191 r
            | S _ => decodeUtf8 k cp' 128 191 r
            end
          else start [65533%N]
      end
  end.

Definition utf16OfUtf8 (bs : list byte) : jsstring := decodeUtf8 0 0 128 191 bs.

(** A string literal of the source as code units: the literal is UTF-8 in
    this file, as it is in the TypeScript source. *)
Definition lit (s : string) : jsstring := utf16OfUtf8 (list_byte_of_string s).

(** [s.length], [arr.length] *)
Definition len {A} (l : list A) : Z := Z.of_nat (List.length l).

(** [x.slice(start, stop)] of strings, arrays and Buffers: negative indices
    count from the end, both ends are clamped to the length. *)
Definition relIndex (n i : Z) : Z :=
  if (i <? 0)%Z then Z.max (n + i) 0 else Z.min i n.

Definition slice {A} (l : list A) (start stop : Z) : list A :=
  let from := relIndex (len l) start in
  let to := relIndex (len l) stop in
  firstn (Z.to_nat (to - from)) (skipn (Z.to_nat from) l).

(** [x.slice(start)] *)
Definition sliceFrom {A} (l : list A) (start : Z) : list A :=
  slice l start (len l).

(** [s.substring(start, stop)]: negative indices are 0, the ends are swapped
    when out of order. *)
Definition substring (s : jsstring) (start stop : Z) : jsstring :=
  let a := Z.min (Z.max start 0) (len s) in
  let b := Z.min (Z.max stop 0) (len s) in
  firstn (Z.to_nat (Z.max a b - Z.min a b)) (skipn (Z.to_nat (Z.min a b)) s).

(** White space and line terminators, as [String.prototype.trim] and
    [parseInt] strip them. *)
Definition isWhiteSpace (c : N) : bool :=
  ((9 <=? c) && (c <=? 13) || (c =? 32) || (c =? 160) || (c =? 5760)
   || (8192 <=? c) && (c <=? 8202) || (c =? 8232) || (c =? 8233)
   || (c =? 8239) || (c =? 8287) || (c =? 12288) || (c =? 65279))%N.

Fixpoint trimStart (s : jsstring) : jsstring :=
  match s with
  | c :: r => if isWhiteSpace c then trimStart r else s
  | [] => []
  end.

Definition trimEnd (s : jsstring) : jsstring := rev (trimStart (rev s)).

Definition trim (s : jsstring) : jsstring := trimEnd (trimStart s).

(** [s.split(sep)] for a one-character separator. *)
Fixpoint split (sep : N) (s : jsstring) : list jsstring :=
  match s with
  | [] => [[]]
  | c :: r =>
      if (c =? sep)%N then [] :: split sep r
      else match split sep r with
           | t :: ts => (c :: t) :: ts
           | [] => [[c]]
           end
  end.

(** [parts.join(sep)] *)
Fixpoint join (sep : jsstring) (parts : list jsstring) : jsstring :=
  match parts with
  | [] => []
  | [p] => p
  | p :: ps => p ++ sep ++ join sep ps
  end.

(** [a === b] on strings *)
Fixpoint strEq (a b : jsstring) : bool :=
  match a, b with
  | [], [] => true
  | x :: a', y :: b' => (x =? y)%N && strEq a' b'
  | _, _ => false
  end.

(** [x || ''] for [x : string | undefined] *)
Definition orEmpty (x : option jsstring) : jsstring :=
  match x with
  | Some s => s
  | None => []
  end.

(** [buf.toString('hex')]: two lower-case digits per byte. *)
Definition hexDigit (n : N) : N := (if n <? 10 then 48 + n else 87 + n)%N.

Definition hexOfByte (b : byte) : jsstring :=
  let n := Byte.to_N b in [hexDigit (n / 16); hexDigit (n mod 16)].

Definition toStringHex (buf : Buffer) : jsstring := flat_map hexOfByte buf.

(** A JavaScript number, as far as the date converters need it: [NaN] or an
    integer. The program subtracts 543 from every [parseInt] result before it
    prints it, so [-0] and [+0] need not be told apart; the values come from
    at most four characters, so they are exact. *)
Inductive number : Type :=
| NaN
| Int (z : Z).

Definition numSub (a : number) (k : Z) : number :=
  match a with
  | NaN => NaN
  | Int z => Int (z - k)
  end.

(** [`${n}`] *)
Definition numberToString (n : number) : jsstring :=
  match n with
  | NaN => lit "NaN"
  | Int z => lit (NilZero.string_of_int (Z.to_int z))
  end.

(** [parseInt(string, radix)] after ECMA-262; [radix = 0] stands for a call
    without radix. *)
Definition digitValue (c : N) : option N :=
  (if (48 <=? c) && (c <=? 57) then Some (c - 48)
   else if (97 <=? c) && (c <=? 122) then Some (c - 87)
   else if (65 <=? c) && (c <=? 90) then Some (c - 55)
   else None)%N.

Definition radixDigit (R c : N) : option N :=
  match digitValue c with
  | Some d => if (d <? R)%N then Some d else None
  | None => None
  end.

Fixpoint takeDigits (R : N) (s : jsstring) : list N :=
  match s with
  | c :: r =>
      match radixDigit R c with
      | Some d => d :: takeDigits R r
      | None => []
      end
  | [] => []
  end.

Definition digitsValue (R : N) (ds : list N) : N :=
  fold_left (fun acc d => (acc * R + d)%N) ds 0%N.

Definition signOf (s : jsstring) : Z :=
  match s with
  | c :: _ => if (c =? 45)%N then (-1)%Z else 1%Z
  | [] => 1%Z
  end.

Definition stripSign (s : jsstring) : jsstring :=
  match s with
  | c :: r => if ((c =? 43) || (c =? 45))%N then r else s
  | [] => []
  end.

(** The string starts with [0x] or [0X]. *)
Definition hexPrefixed (s : jsstring) : bool :=
  match s with
  | c :: x :: _ => ((c =? 48) && ((x =? 120) || (x =? 88)))%N
  | _ => false
  end.

Definition parseInt (string : jsstring) (radix : N) : number :=
  let S := trimStart string in
  let sign := signOf S in
  let S := stripSign S in
  if (negb (radix =? 0) && ((radix <? 2) || (36 <? radix)))%N then NaN
  else
    let stripPrefix := ((radix =? 0) || (radix =? 16))%N in
    let R := (if radix =? 0 then 10 else radix)%N in
    let hex := stripPrefix && hexPrefixed S in
    let S := if hex then skipn 2 S else S in
    let R := if hex then 16%N else R in
    match takeDigits R S with
    | [] => NaN
    | ds => Int (sign * Z.of_N (digitsValue R ds))
    end.

(** ** Thrown values and results *)

(** What a [catch] clause can receive: an [Error] with its message (an
    object whose name is [Error], as [new Error(message)] gives), or any
    other value, kept as [String(value)]. *)
Inductive Thrown : Type :=
| Error (message : jsstring)
| NonError (text : jsstring).

(** [error instanceof Error ? error.message : 'Unknown error'] *)
Definition messageOf (e : Thrown) : jsstring :=
  match e with
  | Error m => m
  | NonError _ => lit "Unknown error"
  end.

Inductive Result (A : Type) : Type :=
| Ok (a : A)
| Throw (e : Thrown).

Arguments Ok {A} a.
Arguments Throw {A} e.

(** ** Date conversion *)

(** [PersonalApplet.convertBuddhistToGregorianDate] *)
Definition convertBuddhistToGregorianDate (buddhistDateStr : jsstring)
  : Result jsstring :=
  if negb (len buddhistDateStr =? 8)%Z then
    Throw (Error (lit "Invalid date format: " ++ buddhistDateStr
                  ++ lit ". Expected YYYYMMDD."))
  else
    let buddhistYear := parseInt (slice buddhistDateStr 0 4) 10 in
    let month := slice buddhistDateStr 4 6 in
    let day := slice buddhistDateStr 6 8 in
    let gregorianYear := numSub buddhistYear 543 in
    Ok (numberToString gregorianYear ++ lit "-" ++ month ++ lit "-" ++ day).

(** [NhsoApplet.convertBuddhistDate]; nothing in its [try] block throws. *)
Definition convertBuddhistDate (buddhistDate : jsstring) : jsstring :=
  if (len buddhistDate =? 0)%Z || negb (len buddhistDate =? 8)%Z then []
  else
    let year := numSub (parseInt (substring buddhistDate 0 4) 0) 543 in
    let month := substring buddhistDate 4 6 in
    let day := substring buddhistDate 6 8 in
    numberToString year ++ lit "-" ++ month ++ lit "-" ++ day.

(** ** Records of the card data

    [ThaiIdCardData] and [NhsoData] are objects whose keys are all optional;
    a property holds a string or, for [nhso], the insurance object. *)

Inductive Value : Type :=
| VStr (s : jsstring)
| VObj (o : gmap string jsstring).

Abbreviation NhsoData := (gmap string jsstring).
Abbreviation ThaiIdCardData := (gmap string Value).

(** ** Notifications and other observable effects *)

Inductive EventName : Type :=
| device_connected
| device_disconnected
| card_inserted
| card_data
| card_error
| card_removed
| card_incorrect.

Inductive Payload : Type :=
| DeviceInfo (message : jsstring) (device : option jsstring)
    (devices : list jsstring)
| InsertedInfo (message atr : jsstring) (device : option jsstring)
| RemovedInfo (message : jsstring) (device : option jsstring)
| CardRecord (record : ThaiIdCardData)
| ErrorInfo (message : jsstring) (error : Thrown).

Record Event : Type := mkEvent {
  status : Z;
  description : jsstring;
  data : Payload
}.

Inductive Effect : Type :=
| Issue (bytes : list byte)          (* card.issueCommand(new CommandApdu({bytes})) *)
| Emit (name : EventName) (ev : Event)  (* this.emit(name, ev) *)
| ConsoleLog (text : jsstring)
| ConsoleWarn (text : jsstring)
| ConsoleError (text : jsstring)
| ProcessExit (code : Z).

(** ** Command catalogues *)

Module apduPerson.
Definition SELECT : list byte := [x00; xa4; x04; x00; x08].
Definition THAI_CARD : list byte := [xa0; x00; x00; x00; x54; x48; x00; x01].
Definition CMD_CID : list byte := [x80; xb0; x00; x04; x02; x00; x0d].
Definition CMD_THFULLNAME : list byte := [x80; xb0; x00; x11; x02; x00; x64].
Definition CMD_ENFULLNAME : list byte := [x80; xb0; x00; x75; x02; x00; x64].
Definition CMD_BIRTH : list byte := [x80; xb0; x00; xd9; x02; x00; x08].
Definition CMD_GENDER : list byte := [x80; xb0; x00; xe1; x02; x00; x01].
Definition CMD_ISSUER : list byte := [x80; xb0; x00; xf6; x02; x00; x64].
Definition CMD_ISSUE : list byte := [x80; xb0; x01; x67; x02; x00; x08].
Definition CMD_EXPIRE : list byte := [x80; xb0; x01; x6f; x02; x00; x08].
Definition CMD_ADDRESS : list byte := [x80; xb0; x15; x79; x02; x00; x64].
Definition CMD_PHOTO1 : list byte := [x80; xb0; x01; x7b; x02; x00; xff].
Definition CMD_PHOTO2 : list byte := [x80; xb0; x02; x7a; x02; x00; xff].
Definition CMD_PHOTO3 : list byte := [x80; xb0; x03; x79; x02; x00; xff].
Definition CMD_PHOTO4 : list byte := [x80; xb0; x04; x78; x02; x00; xff].
Definition CMD_PHOTO5 : list byte := [x80; xb0; x05; x77; x02; x00; xff].
Definition CMD_PHOTO6 : list byte := [x80; xb0; x06; x76; x02; x00; xff].
Definition CMD_PHOTO7 : list byte := [x80; xb0; x07; x75; x02; x00; xff].
Definition CMD_PHOTO8 : list byte := [x80; xb0; x08; x74; x02; x00; xff].
Definition CMD_PHOTO9 : list byte := [x80; xb0; x09; x73; x02; x00; xff].
Definition CMD_PHOTO10 : list byte := [x80; xb0; x0a; x72; x02; x00; xff].
Definition CMD_PHOTO11 : list byte := [x80; xb0; x0b; x71; x02; x00; xff].
Definition CMD_PHOTO12 : list byte := [x80; xb0; x0c; x70; x02; x00; xff].
Definition CMD_PHOTO13 : list byte := [x80; xb0; x0d; x6f; x02; x00; xff].
Definition CMD_PHOTO14 : list byte := [x80; xb0; x0e; x6e; x02; x00; xff].
Definition CMD_PHOTO15 : list byte := [x80; xb0; x0f; x6d; x02; x00; xff].
Definition CMD_PHOTO16 : list byte := [x80; xb0; x10; x6c; x02; x00; xff].
Definition CMD_PHOTO17 : list byte := [x80; xb0; x11; x6b; x02; x00; xff].
Definition CMD_PHOTO18 : list byte := [x80; xb0; x12; x6a; x02; x00; xff].
Definition CMD_PHOTO19 : list byte := [x80; xb0; x13; x69; x02; x00; xff].
Definition CMD_PHOTO20 : list byte := [x80; xb0; x14; x68; x02; x00; xff].

(** The photo entries of the object, for [apduPerson[commandName]]. *)
Definition photoEntries : list (string * list byte) :=
  [("CMD_PHOTO1", CMD_PHOTO1); ("CMD_PHOTO2", CMD_PHOTO2);
   ("CMD_PHOTO3", CMD_PHOTO3); ("CMD_PHOTO4", CMD_PHOTO4);
   ("CMD_PHOTO5", CMD_PHOTO5); ("CMD_PHOTO6", CMD_PHOTO6);
   ("CMD_PHOTO7", CMD_PHOTO7); ("CMD_PHOTO8", CMD_PHOTO8);
   ("CMD_PHOTO9", CMD_PHOTO9); ("CMD_PHOTO10", CMD_PHOTO10);
   ("CMD_PHOTO11", CMD_PHOTO11); ("CMD_PHOTO12", CMD_PHOTO12);
   ("CMD_PHOTO13", CMD_PHOTO13); ("CMD_PHOTO14", CMD_PHOTO14);
   ("CMD_PHOTO15", CMD_PHOTO15); ("CMD_PHOTO16", CMD_PHOTO16);
   ("CMD_PHOTO17", CMD_PHOTO17); ("CMD_PHOTO18", CMD_PHOTO18);
   ("CMD_PHOTO19", CMD_PHOTO19); ("CMD_PHOTO20", CMD_PHOTO20)]%string.

Definition get (key : string) : list byte :=
  match List.find (fun e => String.eqb (fst e) key) photoEntries with
  | Some e => snd e
  | None => []
  end.
End apduPerson.

Module apduNhso.
Definition SELECT : list byte :=
  [x00; xa4; x04; x00; x08; xa0; x00; x00; x00; x54; x48; x00; x83].
Definition CMD_MAIN_INSCL : list byte := [x80; xb0; x00; x04; x02; x00; x3c].
Definition CMD_SUB_INSCL : list byte := [x80; xb0; x00; x40; x02; x00; x64].
Definition CMD_MAIN_HOSPITAL_NAME : list byte := [x80; xb0; x00; xa4; x02; x00; x50].
Definition CMD_SUB_HOSPITAL_NAME : list byte := [x80; xb0; x00; xf4; x02; x00; x50].
Definition CMD_PAID_TYPE : list byte := [x80; xb0; x01; x44; x02; x00; x01].
Definition CMD_ISSUE_DATE : list byte := [x80; xb0; x01; x45; x02; x00; x08].
Definition CMD_EXPIRE_DATE : list byte := [x80; xb0; x01; x4d; x02; x00; x08].
Definition CMD_UPDATE_DATE : list byte := [x80; xb0; x01; x55; x02; x00; x08].
Definition CMD_CHANGE_HOSPITAL_AMOUNT : list byte := [x80; xb0; x01; x5d; x02; x00; x01].
End apduNhso.

(** [ThaiIdCardReader.STATUS] *)
Module STATUS.
Definition SUCCESS : Z := 200.
Definition DEVICE_ACTIVATED : Z := 201.
Definition CARD_INSERTED : Z := 202.
Definition CARD_REMOVED : Z := 205.
Definition INCORRECT_CARD : Z := 400.
Definition DEVICE_NOT_FOUND : Z := 404.
Definition ERROR : Z := 500.
End STATUS.

(** ** Collaborators

    The card, the two text decoders and the image encoder are outside the
    program. A card answers a command with a Buffer or rejects it, and may
    change its state; [getAtr] is its reset response.
    [legacyDecode] is [legacy.decode(_, 'tis620')], declared in the
    repository as [Buffer -> Buffer]; [utf8] is [Buffer.prototype.toString()]. *)
Record Collaborators : Type := {
  CardSt : Type;
  issue : CardSt -> list byte -> Result Buffer * CardSt;
  getAtr : CardSt -> Buffer;
  utf8 : Buffer -> jsstring;
  legacyDecode : Buffer -> Buffer;
  hex2imagebase64 : jsstring -> jsstring
}.

(** ** The effect monad *)

Record World (S : Type) : Type := mkWorld {
  state : S;
  trace : list Effect
}.

(** A computation over a state [S] (the card during a read cycle, the
    reader's flags in an event handler) that returns or throws. *)
Definition M (S A : Type) : Type := World S -> Result A * World S.

Definition ret {S A} (a : A) : M S A := fun w => (Ok a, w).

Definition bind {S A B} (m : M S A) (k : A -> M S B) : M S B :=
  fun w =>
    match m w with
    | (Ok a, w') => k a w'
    | (Throw e, w') => (Throw e, w')
    end.

Definition throw {S A} (e : Thrown) : M S A := fun w => (Throw e, w).

(** [try { m } catch (error) { h error }] *)
Definition tryCatch {S A} (m : M S A) (h : Thrown -> M S A) : M S A :=
  fun w =>
    match m w with
    | (Ok a, w') => (Ok a, w')
    | (Throw e, w') => h e w'
    end.

Definition effect {S} (e : Effect) : M S unit :=
  fun w => (Ok tt, {| state := state w; trace := trace w ++ [e] |}).

Definition get {S} : M S S := fun w => (Ok (state w), w).

Definition put {S} (s : S) : M S unit :=
  fun w => (Ok tt, {| state := s; trace := trace w |}).

Definition liftResult {S A} (r : Result A) : M S A := fun w => (r, w).

Declare Scope js_scope.
Delimit Scope js_scope with js.
Notation "x <- m ;; k" := (bind m (fun x => k))
  (at level 100, m at next level, right associativity) : js_scope.
Notation "m ;;; k" := (bind m (fun _ => k))
  (at level 100, right associativity) : js_scope.
Local Open Scope js_scope.

Section Program.

Context (E : Collaborators).

Local Abbreviation Card := (CardSt E).
Local Abbreviation IO := (M Card).

(** [await this.card.issueCommand(new CommandApdu({ bytes }))] *)
Definition issueCommand (bytes : list byte) : IO Buffer :=
  fun w =>
    let (r, c') := issue E (state w) bytes in
    (r, {| state := c'; trace := trace w ++ [Issue bytes] |}).

(** ** [utils/reader.ts] *)

Definition getData (command req : list byte) : IO Buffer :=
  data <- issueCommand command;;
  data <- issueCommand (req ++ sliceFrom command (-1));;
  ret data.

Definition getLaser (req : list byte) : IO jsstring :=
  issueCommand [x00; xa4; x04; x00; x08; xa0; x00; x00; x00; x84; x06; x00; x02];;;
  let command := [x80; x00; x00; x00; x07] in
  data <- issueCommand command;;
  data <- issueCommand (req ++ [x10]);;
  ret (trim (List.filter (fun c => negb (c =? 0)%N) (utf8 E (slice data 0 (-2))))).

(** ** [applets/personal-applet.ts] *)

Record NameComponents : Type := {
  prefix : jsstring;
  firstname : jsstring;
  middlename : jsstring;
  lastname : jsstring;
  fullname : jsstring
}.

Record AddressComponents : Type := {
  houseNo : jsstring;
  moo : jsstring;
  soi : jsstring;
  street : jsstring;
  subdistrict : jsstring;
  district : jsstring;
  province : jsstring;
  fullAddress : jsstring
}.

Definition PHOTO_COMMANDS : list string :=
  ["CMD_PHOTO1"; "CMD_PHOTO2"; "CMD_PHOTO3"; "CMD_PHOTO4"; "CMD_PHOTO5";
   "CMD_PHOTO6"; "CMD_PHOTO7"; "CMD_PHOTO8"; "CMD_PHOTO9"; "CMD_PHOTO10";
   "CMD_PHOTO11"; "CMD_PHOTO12"; "CMD_PHOTO13"; "CMD_PHOTO14"; "CMD_PHOTO15";
   "CMD_PHOTO16"; "CMD_PHOTO17"; "CMD_PHOTO18"; "CMD_PHOTO19"; "CMD_PHOTO20"]%string.

Definition initializeCard : IO unit :=
  issueCommand (apduPerson.SELECT ++ apduPerson.THAI_CARD);;;
  ret tt.

Definition createFieldLookup (queryFields : list string) : gmap string bool :=
  fold_left (fun lookup field => <[field := true]> lookup) queryFields
    (list_to_map
       [("cid", false); ("name", false); ("nameEn", false); ("dob", false);
        ("gender", false); ("issuer", false); ("issueDate", false);
        ("expireDate", false); ("address", false); ("photo", false)]%string).

(** [nameArray[i]?.trim() || ''] *)
Definition partAt (parts : list jsstring) (i : nat) : jsstring :=
  orEmpty (option_map trim (nth_error parts i)).

Definition nonEmpty (part : jsstring) : bool := (0 <? len part)%Z.

Definition parseNameComponents (decodedData : Buffer) : NameComponents :=
  let nameArray := split 35 (trim (utf8 E (slice decodedData 0 (-2)))) in
  let prefix := partAt nameArray 0 in
  let firstname := partAt nameArray 1 in
  let middlename := partAt nameArray 2 in
  let lastname := partAt nameArray 3 in
  {| prefix := prefix;
     firstname := firstname;
     middlename := middlename;
     lastname := lastname;
     fullname :=
       trim (join (lit " ")
               (List.filter nonEmpty [prefix; firstname; middlename; lastname])) |}.

(** [s.startsWith(p)] and [s.substring(n)] *)
Definition startsWith (s p : jsstring) : bool :=
  strEq (firstn (List.length p) s) p.

Definition substringFrom (s : jsstring) (n : Z) : jsstring :=
  substring s n (len s).

(** The address helpers take [addressPart: string = ''], so a missing array
    element reads as the empty string. *)
Definition extractMooNumber (addressPart : option jsstring) : jsstring :=
  let p := orEmpty addressPart in
  if startsWith p (lit "หมู่ที่") then trim (substringFrom p 7) else [].

Definition extractSoiName (addressPart : option jsstring) : jsstring :=
  let p := orEmpty addressPart in
  if startsWith p (lit "ซอย") then trim (substringFrom p 3) else [].

Definition extractSubdistrict (addressPart : option jsstring) : jsstring :=
  let p := orEmpty addressPart in
  if (4 <=? len p)%Z then trim (substringFrom p 4) else [].

Definition extractDistrict (addressPart : option jsstring) : jsstring :=
  let p := orEmpty addressPart in
  if startsWith p (lit "เขต") then trim (substringFrom p 3)
  else if (5 <=? len p)%Z then trim (substringFrom p 5)
  else [].

Definition extractProvince (addressPart : option jsstring) : jsstring :=
  let p := orEmpty addressPart in
  if (7 <=? len p)%Z then trim (substringFrom p 7) else [].

(** [arr[i]] for an integer index that may be negative or out of range. *)
Definition at_ (parts : list jsstring) (i : Z) : option jsstring :=
  if (i <? 0)%Z then None else nth_error parts (Z.to_nat i).

Definition parseAddressComponents (addressStr : jsstring) : AddressComponents :=
  let addressParts := split 35 addressStr in
  {| houseNo := partAt addressParts 0;
     moo := extractMooNumber (at_ addressParts 1);
     soi := extractSoiName (at_ addressParts 1);
     street := trim (join (lit " ") (slice addressParts 2 (-3)));
     subdistrict := extractSubdistrict (at_ addressParts (len addressParts - 3));
     district := extractDistrict (at_ addressParts (len addressParts - 2));
     province := extractProvince (at_ addressParts (len addressParts - 1));
     fullAddress :=
       trim (join (lit " ")
               (List.filter (fun part => nonEmpty part && nonEmpty (trim part))
                  addressParts)) |}.

Section PersonalApplet.

Variable requestCommand : list byte.

Definition extractCitizenId : IO jsstring :=
  data <- getData apduPerson.CMD_CID requestCommand;;
  ret (trim (utf8 E (slice data 0 (-2)))).

Definition extractThaiName : IO jsstring :=
  data <- getData apduPerson.CMD_THFULLNAME requestCommand;;
  let decodedData := legacyDecode E data in
  ret (fullname (parseNameComponents decodedData)).

Definition extractEnglishName : IO jsstring :=
  data <- getData apduPerson.CMD_ENFULLNAME requestCommand;;
  let decodedData := legacyDecode E data in
  ret (fullname (parseNameComponents decodedData)).

Definition extractDateOfBirth : IO jsstring :=
  data <- getData apduPerson.CMD_BIRTH requestCommand;;
  let dateStr := trim (utf8 E (slice data 0 (-2))) in
  liftResult (convertBuddhistToGregorianDate dateStr).

Definition extractGender : IO jsstring :=
  data <- getData apduPerson.CMD_GENDER requestCommand;;
  ret (trim (utf8 E (slice data 0 (-2)))).

Definition extractIssuer : IO jsstring :=
  data <- getData apduPerson.CMD_ISSUER requestCommand;;
  ret (trim (utf8 E (slice (legacyDecode E data) 0 (-2)))).

Definition extractIssueDate : IO jsstring :=
  data <- getData apduPerson.CMD_ISSUE requestCommand;;
  let dateStr := trim (utf8 E (slice data 0 (-2))) in
  liftResult (convertBuddhistToGregorianDate dateStr).

Definition extractExpireDate : IO jsstring :=
  data <- getData apduPerson.CMD_EXPIRE requestCommand;;
  let dateStr := trim (utf8 E (slice data 0 (-2))) in
  liftResult (convertBuddhistToGregorianDate dateStr).

Definition extractAddress : IO jsstring :=
  data <- getData apduPerson.CMD_ADDRESS requestCommand;;
  let decodedData := legacyDecode E data in
  let addressStr := trim (utf8 E (slice decodedData 0 (-2))) in
  if (len addressStr =? 0)%Z then ret []
  else ret (fullAddress (parseAddressComponents addressStr)).

(** The [for ... of PersonalApplet.PHOTO_COMMANDS] loop, with the array
    [photoHexParts] it pushes to. *)
Fixpoint readPhotoParts (names : list string) (photoHexParts : list jsstring)
  : IO (list jsstring) :=
  match names with
  | [] => ret photoHexParts
  | commandName :: rest =>
      let command := apduPerson.get commandName in
      data <- getData command requestCommand;;
      readPhotoParts rest (photoHexParts ++ [slice (toStringHex data) 0 (-4)])
  end.

Definition extractPhoto : IO jsstring :=
  photoHexParts <- readPhotoParts PHOTO_COMMANDS [];;
  let photoHex := join [] photoHexParts in
  ret (hex2imagebase64 E photoHex).

(** [if (requestedFields.key) extractedData.key = await extract()] *)
Definition readIf (requestedFields : gmap string bool) (key : string)
    (extract : IO jsstring) (extractedData : ThaiIdCardData)
  : IO ThaiIdCardData :=
  if default false (requestedFields !! key) then
    v <- extract;;
    ret (<[key := VStr v]> extractedData)
  else ret extractedData.

(** [PersonalApplet.getInfo(queryFields = ['cid'])]; [None] is a call without
    argument. *)
Definition PersonalApplet_getInfo (queryFields : option (list string))
  : IO ThaiIdCardData :=
  let queryFields := default ["cid"%string] queryFields in
  initializeCard;;;
  let requestedFields := createFieldLookup queryFields in
  let extractedData : ThaiIdCardData := ∅ in
  extractedData <- readIf requestedFields "cid" extractCitizenId extractedData;;
  extractedData <- readIf requestedFields "name" extractThaiName extractedData;;
  extractedData <- readIf requestedFields "nameEn" extractEnglishName extractedData;;
  extractedData <- readIf requestedFields "dob" extractDateOfBirth extractedData;;
  extractedData <- readIf requestedFields "gender" extractGender extractedData;;
  extractedData <- readIf requestedFields "issuer" extractIssuer extractedData;;
  extractedData <- readIf requestedFields "issueDate" extractIssueDate extractedData;;
  extractedData <- readIf requestedFields "expireDate" extractExpireDate extractedData;;
  extractedData <- readIf requestedFields "address" extractAddress extractedData;;
  extractedData <- readIf requestedFields "photo" extractPhoto extractedData;;
  ret extractedData.

End PersonalApplet.

(** ** [applets/nhso-applet.ts] *)

Section NhsoApplet.

Variable requestCommand : list byte.

Definition initializeNhsoCard : IO unit :=
  issueCommand apduNhso.SELECT;;;
  ret tt.

(** The three shapes of a field read in [extractNhsoData]. *)
Definition readDecoded (command : list byte) : IO jsstring :=
  data <- getData command requestCommand;;
  ret (trim (utf8 E (slice (legacyDecode E data) 0 (-2)))).

Definition readHex (command : list byte) : IO jsstring :=
  data <- getData command requestCommand;;
  ret (toStringHex (slice data 0 (-2))).

Definition readDate (command : list byte) : IO jsstring :=
  data <- getData command requestCommand;;
  ret (convertBuddhistDate (trim (utf8 E (slice data 0 (-2))))).

(** The assignments of the [try] block, in program order. *)
Definition nhsoAssignments : list (string * IO jsstring) :=
  [("mainInscl", readDecoded apduNhso.CMD_MAIN_INSCL);
   ("subInscl", readDecoded apduNhso.CMD_SUB_INSCL);
   ("mainHospitalName", readDecoded apduNhso.CMD_MAIN_HOSPITAL_NAME);
   ("subHospitalName", readDecoded apduNhso.CMD_SUB_HOSPITAL_NAME);
   ("paidType", readHex apduNhso.CMD_PAID_TYPE);
   ("issueDate", readDate apduNhso.CMD_ISSUE_DATE);
   ("expireDate", readDate apduNhso.CMD_EXPIRE_DATE);
   ("updateDate", readDate apduNhso.CMD_UPDATE_DATE);
   ("changeHospitalAmount", readHex apduNhso.CMD_CHANGE_HOSPITAL_AMOUNT)]%string.

(** The [try] block of [extractNhsoData] with its [catch]: [nhsoData] is one
    object assigned to in place, so what was assigned before a throw is
    still there when the [catch] clause warns and falls through to
    [return nhsoData]; the statements after the throwing one do not run. *)
Fixpoint assignUntilThrow (todo : list (string * IO jsstring))
    (nhsoData : NhsoData) : IO NhsoData :=
  match todo with
  | [] => ret nhsoData
  | (key, read) :: rest =>
      fun w =>
        match read w with
        | (Ok v, w') => assignUntilThrow rest (<[key := v]> nhsoData) w'
        | (Throw error, w') =>
            (effect (ConsoleWarn (lit "Some NHSO fields could not be extracted:"));;;
             ret nhsoData) w'
        end
  end.

Definition extractNhsoData : IO NhsoData :=
  assignUntilThrow nhsoAssignments ∅.

Definition NhsoApplet_getInfo : IO NhsoData :=
  tryCatch
    (initializeNhsoCard;;;
     nhsoData <- extractNhsoData;;
     ret nhsoData)
    (fun error =>
       throw (Error (lit "Failed to read NHSO data: " ++ messageOf error))).

End NhsoApplet.

(** ** [thai-id-card-reader.ts] *)

(** [CardReaderOptions]: both keys optional. *)
Record CardReaderOptions : Type := {
  exitOnReadError_given : option bool;
  debug_given : option bool
}.

(** [Required<CardReaderOptions>] *)
Record RequiredOptions : Type := {
  exitOnReadError : bool;
  debug : bool
}.

Definition validateAndSetOptions (options : CardReaderOptions) : RequiredOptions :=
  {| exitOnReadError := default true (exitOnReadError_given options);
     debug := default false (debug_given options) |}.

Definition ALL_FIELDS : list string :=
  ["cid"; "name"; "nameEn"; "dob"; "gender"; "issuer"; "issueDate";
   "expireDate"; "address"; "photo"; "nhso"; "laserId"]%string.

(** [`${x}`] of a value that may be [undefined], and of a thrown value. *)
Definition showOpt (x : option jsstring) : jsstring :=
  default (lit "undefined") x.

(** [Error.prototype.toString] of an error named [Error]: the name alone
    when the message is empty. *)
Definition showThrown (e : Thrown) : jsstring :=
  match e with
  | Error m => if (len m =? 0)%Z then lit "Error" else lit "Error: " ++ m
  | NonError t => t
  end.

(** The two mutable fields of the reader; [options] is read-only. *)
Record Flags : Type := {
  isInitialized : bool;
  cardInserted : bool
}.

Section Reader.

Variable options : RequiredOptions.

Definition logDebug {S} (message : jsstring) : M S unit :=
  if debug options then effect (ConsoleLog (lit "[ThaiIdCardReader] " ++ message))
  else ret tt.

Definition logError {S} (message : jsstring) : M S unit :=
  effect (ConsoleError (lit "[ThaiIdCardReader ERROR] " ++ message)).

Definition emit {S} (name : EventName) (ev : Event) : M S unit :=
  effect (Emit name ev).

(** *** Card data processing *)

Definition determineRequestCommand (card : Card) : list byte :=
  let atr := getAtr E card in
  if strEq (slice (toStringHex atr) 0 8) (toStringHex [x3b; x67])
  then [x00; xc0; x00; x01]
  else [x00; xc0; x00; x00].

Definition extractPersonalData (requestCommand : list byte)
    (currentData : ThaiIdCardData) : IO ThaiIdCardData :=
  tryCatch
    (let personalFields :=
       List.filter (fun field => negb (String.eqb field "nhso")
                                 && negb (String.eqb field "laserId"))
         ALL_FIELDS in
     if (0 <? len personalFields)%Z then
       personalData <- PersonalApplet_getInfo requestCommand (Some personalFields);;
       ret (personalData ∪ currentData)
     else ret currentData)
    (fun error =>
       logError (lit "Failed to read personal data");;;
       throw (Error (lit "Personal data extraction failed: " ++ messageOf error))).

Definition extractHealthData (requestCommand : list byte)
    (currentData : ThaiIdCardData) : IO ThaiIdCardData :=
  tryCatch
    (nhsoData <- NhsoApplet_getInfo requestCommand;;
     ret (<["nhso" := VObj nhsoData]> currentData))
    (fun error =>
       logDebug (lit "NHSO data not available or failed to read");;;
       ret currentData).

Definition extractLaserData (requestCommand : list byte)
    (currentData : ThaiIdCardData) : IO ThaiIdCardData :=
  tryCatch
    (laserId <- getLaser requestCommand;;
     ret (<["laserId" := VStr laserId]> currentData))
    (fun error =>
       logDebug (lit "Laser ID not available or failed to read");;;
       ret (<["laserId" := VStr []]> currentData)).

Definition extractCardData : IO ThaiIdCardData :=
  card <- get;;
  let requestCommand := determineRequestCommand card in
  let data : ThaiIdCardData := ∅ in
  data <- extractPersonalData requestCommand data;;
  data <- extractHealthData requestCommand data;;
  data <- extractLaserData requestCommand data;;
  ret data.

(** [process.exit(1)] is the last statement on its path in every handler,
    so it is an effect here; [step] below runs nothing after it. *)
Definition handleReadError {S} (error : Thrown) : M S unit :=
  let message := lit "Failed to read Thai National ID Card: " ++ messageOf error in
  logError message;;;
  emit card_error
    {| status := STATUS.ERROR;
       description := lit "Card Read Error";
       data := ErrorInfo message
                 (match error with
                  | Error _ => error
                  | NonError t => Error t
                  end) |};;;
  if exitOnReadError options then
    logError (lit "Exiting process due to read error (exitOnReadError: true)");;;
    effect (ProcessExit 1)
  else ret tt.

Definition processCardData : IO unit :=
  tryCatch
    (logDebug (lit "Starting card data extraction...");;;
     data <- extractCardData;;
     logDebug (lit "Card data extracted successfully");;;
     emit card_data
       {| status := STATUS.SUCCESS;
          description := lit "Data Read Successfully";
          data := CardRecord data |})
    handleReadError.

(** *** Event handlers

    A handler runs over the reader's flags. [withCard] runs a read cycle on
    the card that came with the insertion event. The listeners that
    [setupCardDebugListeners] registers only write to the console and are
    left out. *)
Local Abbreviation Handler := (M Flags unit).

Definition withCard {A} (card : Card) (m : IO A) : M Flags A :=
  fun w =>
    let (r, w') := m {| state := card; trace := trace w |} in
    (r, {| state := state w; trace := trace w' |}).

Definition setCardInserted (b : bool) : Handler :=
  this <- get;;
  put {| isInitialized := isInitialized this; cardInserted := b |}.

Definition setInitialized (b : bool) : Handler :=
  this <- get;;
  put {| isInitialized := b; cardInserted := cardInserted this |}.

(** [start] is what [new Devices()] followed by [registerDeviceListeners()]
    does in this call, returning or throwing; what is registered is the
    [handler] below. *)
Definition init (start : Result unit) : Handler :=
  this <- get;;
  if isInitialized this then
    throw (Error (lit "Thai National ID Card Reader is already initialized"))
  else
    tryCatch
      (liftResult start;;;
       setInitialized true;;;
       logDebug (lit "Thai National ID Card Reader initialized successfully"))
      (fun error =>
         throw (Error (lit "Failed to initialize card reader: "
                       ++ messageOf error))).

Definition resetState : Handler :=
  put {| isInitialized := false; cardInserted := false |}.

Definition destroy : Handler :=
  resetState;;;
  logDebug (lit "Thai National ID Card Reader destroyed").

Definition handleDeviceConnected (device : jsstring) (devices : list jsstring)
  : Handler :=
  let message := lit "Card reader '" ++ device ++ lit "' connected and ready" in
  logDebug (lit "Device activated");;;
  emit device_connected
    {| status := STATUS.DEVICE_ACTIVATED;
       description := lit "Device Activated";
       data := DeviceInfo message (Some device) devices |}.

Definition handleDeviceDisconnected (device : option jsstring)
    (devices : option (list jsstring)) : Handler :=
  let message := lit "Card reader '" ++ showOpt device ++ lit "' disconnected" in
  logError message;;;
  emit device_disconnected
    {| status := STATUS.DEVICE_NOT_FOUND;
       description := lit "Device Deactivated";
       data := DeviceInfo message device (default [] devices) |};;;
  setCardInserted false.

Definition handleDeviceError (error : Thrown) : Handler :=
  let message := lit "Device error: " ++ showThrown error in
  logError message;;;
  emit card_error
    {| status := STATUS.ERROR;
       description := lit "Device Error";
       data := ErrorInfo message error |}.

Definition handleCardInserted (card : Card) (device : option jsstring) : Handler :=
  let atr := getAtr E card in
  let message := lit "Thai National ID Card detected (ATR: " ++ utf8 E atr ++ lit ")" in
  logDebug message;;;
  emit card_inserted
    {| status := STATUS.CARD_INSERTED;
       description := lit "Card Inserted";
       data := InsertedInfo message (utf8 E atr) device |};;;
  setCardInserted true;;;
  withCard card processCardData.

Definition handleCardRemoved (name : option jsstring) : Handler :=
  this <- get;;
  if cardInserted this then
    let message := lit "Thai National ID Card removed" in
    logDebug message;;;
    emit card_removed
      {| status := STATUS.CARD_REMOVED;
         description := lit "Card Removed";
         data := RemovedInfo message name |};;;
    setCardInserted false
  else ret tt.

Definition handleCardError (event : Thrown) : Handler :=
  let message :=
    lit "Incorrect card type - Please insert a valid Thai National ID Card" in
  logError message;;;
  emit card_incorrect
    {| status := STATUS.INCORRECT_CARD;
       description := lit "Incorrect Card Type";
       data := ErrorInfo message event |}.

(** *** The reader as a transition system

    What the application and the driver can do to a reader: call [init]
    (with what the start of the driver does in that call) or [destroy], or
    deliver one of the driver's events. *)
Inductive Signal : Type :=
| CallInit (start : Result unit)
| CallDestroy
| DeviceActivated (device : jsstring) (devices : list jsstring)
| DeviceDeactivated (device : option jsstring) (devices : option (list jsstring))
| DeviceError (error : Thrown)
| CardInserted (card : Card) (device : option jsstring)
| CardRemoved (name : option jsstring)
| CardError (event : Thrown).

Definition handler (sig : Signal) : Handler :=
  match sig with
  | CallInit start => init start
  | CallDestroy => destroy
  | DeviceActivated device devices => handleDeviceConnected device devices
  | DeviceDeactivated device devices => handleDeviceDisconnected device devices
  | DeviceError error => handleDeviceError error
  | CardInserted card device => handleCardInserted card device
  | CardRemoved name => handleCardRemoved name
  | CardError event => handleCardError event
  end.

Definition isExit (e : Effect) : bool :=
  match e with
  | ProcessExit _ => true
  | _ => false
  end.

Definition exited (w : World Flags) : bool := existsb isExit (trace w).

Definition step (w : World Flags) (sig : Signal) : World Flags :=
  if exited w then w else snd (handler sig w).

Definition run (w : World Flags) (sigs : list Signal) : World Flags :=
  fold_left step sigs w.

End Reader.

(** [new ThaiIdCardReader(options)]; [None] is a call without argument, whose
    default is [{}]. *)
Definition newOptions (options : option CardReaderOptions) : RequiredOptions :=
  validateAndSetOptions
    (default {| exitOnReadError_given := None; debug_given := None |} options).

Definition newReader : World Flags :=
  {| state := {| isInitialized := false; cardInserted := false |}; trace := [] |}.

End Program.

(** ** Observers and the insurance probe *)

(** [NhsoApplet.hasNhsoData] *)
Definition hasNhsoData (E : Collaborators) : M (CardSt E) bool :=
  tryCatch
    (initializeNhsoCard E;;;
     ret true)
    (fun _ => ret false).

(** [ThaiIdCardReader.isReady] and [ThaiIdCardReader.hasCardInserted] *)
Definition isReady (w : World Flags) : bool := isInitialized (state w).

Definition hasCardInserted (w : World Flags) : bool := cardInserted (state w).

(** ** A scripted card and simple collaborators

    Concrete collaborators on which the program can be run: a card that
    rejects the commands selected by [rejects] and answers every other
    command with [answer]; a UTF-8 reading of Buffers; pass-through text
    and image codecs. *)

Fixpoint bytesEq (a b : list byte) : bool :=
  match a, b with
  | [], [] => true
  | x :: a', y :: b' => Byte.eqb x y && bytesEq a' b'
  | _, _ => false
  end.

Record ScriptedCard : Type := {
  resetResponse : Buffer;
  rejects : list byte -> bool;
  answer : list byte -> Buffer
}.

Definition scripted : Collaborators :=
  {| CardSt := ScriptedCard;
     issue := fun c bytes =>
       if rejects c bytes
       then (Throw (Error (lit "Card rejected the command")), c)
       else (Ok (answer c bytes), c);
     getAtr := resetResponse;
     utf8 := utf16OfUtf8;
     legacyDecode := fun buf => buf;
     hex2imagebase64 := fun hex => hex |}.

(** A card that answers every command with the text [25680315] and the
    status bytes [90 00], except those in [refused]. *)
Definition cardRefusing (refused : list (list byte)) : ScriptedCard :=
  {| resetResponse := [x3b; x67; x00; x00; x2d; x20; x36; x00; x78; x90; x00];
     rejects := fun bytes => existsb (bytesEq bytes) refused;
     answer := fun _ => list_byte_of_string "25680315" ++ [x90; x00] |}.

Definition onCard (c : ScriptedCard) : World ScriptedCard :=
  {| state := c; trace := [] |}.

(** ** Vocabulary of the properties

    The specification's own notions (the value of a digit string, the date
    [Y-MM-DD], the name tokens) and what the statements below say about
    traces and runs. *)

Definition isDigit (c : N) : bool := ((48 <=? c) && (c <=? 57))%N.

(** The integer a string of decimal digits denotes. *)
Definition decimalValue (s : jsstring) : Z :=
  fold_left (fun acc c => (acc * 10 + (Z.of_N c - 48))%Z) s 0%Z.

(** [Y-MM-DD] with [Y] the year of [D] minus 543 and the month and day
    characters of [D]. *)
Definition gregorianDate (D : jsstring) : jsstring :=
  numberToString (Int (decimalValue (firstn 4 D) - 543))
  ++ lit "-" ++ firstn 2 (skipn 4 D) ++ lit "-" ++ firstn 2 (skipn 6 D).

(** The year characters of [D] read as a hexadecimal literal: [0x] or [0X]
    after optional white space and sign. *)
Definition yearHasHexPrefix (D : jsstring) : bool :=
  hexPrefixed (stripSign (trimStart (firstn 4 D))).


(** The notifications in a trace, in order. *)
Definition notifications (tr : list Effect) : list (EventName * Event) :=
  flat_map (fun e => match e with
                     | Emit name ev => [(name, ev)]
                     | _ => []
                     end) tr.

(** The commands sent to the card in a trace, in order. *)
Definition issued (tr : list Effect) : list (list byte) :=
  flat_map (fun e => match e with
                     | Issue bytes => [bytes]
                     | _ => []
                     end) tr.

(** The world in which the first step of a read cycle runs: the trace has
    the line that [processCardData] logs in debug mode. *)
Definition cycleStart {S} (options : RequiredOptions) (w : World S) : World S :=
  snd (logDebug options (lit "Starting card data extraction...") w).

(** The notification that carries a record. *)
Definition cardDataEvent (record : ThaiIdCardData) : EventName * Event :=
  (card_data,
   {| status := STATUS.SUCCESS;
      description := lit "Data Read Successfully";
      data := CardRecord record |}).

(** The value a run returned, [d] if it threw. *)
Definition returned {S A} (r : Result A * World S) (d : A) : A :=
  match fst r with
  | Ok a => a
  | Throw _ => d
  end.

(** The value a run threw. *)
Definition thrownBy {S A} (r : Result A * World S) : Thrown :=
  match fst r with
  | Ok _ => NonError []
  | Throw e => e
  end.

(** The select command of the laser applet, first command of [getLaser]. *)
Definition laserSelect : list byte :=
  [x00; xa4; x04; x00; x08; xa0; x00; x00; x00; x84; x06; x00; x02].

(** Running reads one after the other, as long as none throws. *)
Fixpoint readAll {S A} (reads : list (M S A)) : M S (list A) :=
  match reads with
  | [] => ret []
  | read :: rest =>
      v <- read;;
      vs <- readAll rest;;
      ret (v :: vs)
  end.

(** Assigning properties to an object, in order. *)
Definition assignAll (kvs : list (string * jsstring)) (o : NhsoData) : NhsoData :=
  fold_left (fun o kv => <[fst kv := snd kv]> o) kvs o.

(** The keys of [NhsoData] in the order in which the program assigns them. *)
Definition nhsoKeys : list string :=
  ["mainInscl"; "subInscl"; "mainHospitalName"; "subHospitalName"; "paidType";
   "issueDate"; "expireDate"; "updateDate"; "changeHospitalAmount"]%string.

(** The world after the [catch] clause of [extractNhsoData] has warned. *)
Definition warned {S} (w : World S) : World S :=
  {| state := state w;
     trace := trace w
              ++ [ConsoleWarn (lit "Some NHSO fields could not be extracted:")] |}.

(** Effects other than a [card-removed] notification. *)
Definition notRemoved (e : Effect) : Prop :=
  match e with
  | Emit card_removed _ => False
  | _ => True
  end.

(** A trace has a [card-removed], a [card-inserted] notification. *)
Definition removedIn (tr : list Effect) : Prop :=
  exists ev, In (Emit card_removed ev) tr.

Definition insertedIn (tr : list Effect) : Prop :=
  exists ev, In (Emit card_inserted ev) tr.

(** The commands that two-phase reads of [commands] send, in order: each
    command, then the request prefix with the command's last byte. *)
Definition twoPhase (req : list byte) (commands : list (list byte))
  : list (list byte) :=
  flat_map (fun command => [command; req ++ sliceFrom command (-1)]) commands.

(** The photo commands of the catalogue in its order, as
    [getPhotoCommands] lists them. *)
Definition photoCommands : list (list byte) :=
  [apduPerson.CMD_PHOTO1; apduPerson.CMD_PHOTO2; apduPerson.CMD_PHOTO3;
   apduPerson.CMD_PHOTO4; apduPerson.CMD_PHOTO5; apduPerson.CMD_PHOTO6;
   apduPerson.CMD_PHOTO7; apduPerson.CMD_PHOTO8; apduPerson.CMD_PHOTO9;
   apduPerson.CMD_PHOTO10; apduPerson.CMD_PHOTO11; apduPerson.CMD_PHOTO12;
   apduPerson.CMD_PHOTO13; apduPerson.CMD_PHOTO14; apduPerson.CMD_PHOTO15;
   apduPerson.CMD_PHOTO16; apduPerson.CMD_PHOTO17; apduPerson.CMD_PHOTO18;
   apduPerson.CMD_PHOTO19; apduPerson.CMD_PHOTO20].

(** The second, fourth, ... element: of the responses to two-phase reads,
    those of the second phase. *)
Fixpoint everySecond {A} (l : list A) : list A :=
  match l with
  | _ :: x :: rest => x :: everySecond rest
  | _ => []
  end.

(** The commands of the program that do not depend on the request prefix:
    the three selections and the first phase of every read. *)
Definition fixedCommands : list (list byte) :=
  [apduPerson.SELECT ++ apduPerson.THAI_CARD;
   apduPerson.CMD_CID; apduPerson.CMD_THFULLNAME; apduPerson.CMD_ENFULLNAME;
   apduPerson.CMD_BIRTH; apduPerson.CMD_GENDER; apduPerson.CMD_ISSUER;
   apduPerson.CMD_ISSUE; apduPerson.CMD_EXPIRE; apduPerson.CMD_ADDRESS]
  ++ photoCommands
  ++ [apduNhso.SELECT;
      apduNhso.CMD_MAIN_INSCL; apduNhso.CMD_SUB_INSCL;
      apduNhso.CMD_MAIN_HOSPITAL_NAME; apduNhso.CMD_SUB_HOSPITAL_NAME;
      apduNhso.CMD_PAID_TYPE; apduNhso.CMD_ISSUE_DATE;
      apduNhso.CMD_EXPIRE_DATE; apduNhso.CMD_UPDATE_DATE;
      apduNhso.CMD_CHANGE_HOSPITAL_AMOUNT;
      laserSelect; [x80; x00; x00; x00; x07]].

(** An effect that, if it is a command, is a fixed command or the prefix
    [req] followed by one length byte. *)
Definition withPrefix (req : list byte) (e : Effect) : Prop :=
  match e with
  | Issue bytes => In bytes fixedCommands \/ exists le, bytes = req ++ [le]
  | _ => True
  end.

(** Reading two hexadecimal digits back. *)
Definition byteOfHex (s : jsstring) : option byte :=
  let unhex (c : N) := (if c <? 58 then c - 48 else c - 87)%N in
  match s with
  | [h; l] => Byte.of_N (unhex h * 16 + unhex l)
  | _ => None
  end.

(** [emits P m]: running [m] only appends to the trace, and every effect it
    appends satisfies [P]. *)
Definition emits {S A} (P : Effect -> Prop) (m : M S A) : Prop :=
  forall w, exists new, trace (snd (m w)) = trace w ++ new /\ Forall P new.

(** Effects that are neither a notification nor the end of the process. *)
Definition quiet (e : Effect) : Prop :=
  match e with
  | Emit _ _ | ProcessExit _ => False
  | _ => True
  end.

(** The ten personal fields, as the reader passes them to [getInfo]. *)
Definition personalKeys : list string :=
  ["cid"; "name"; "nameEn"; "dob"; "gender"; "issuer"; "issueDate";
   "expireDate"; "address"; "photo"]%string.

(** A card that answers every command with [response]. *)
Definition cardAnswering (response : Buffer) : ScriptedCard :=
  {| resetResponse := [x3b; x78; x18; x00];
     rejects := fun _ => false;
     answer := fun _ => response |}.

(** The status every notification of a name carries. *)
Definition statusOf (name : EventName) : Z :=
  match name with
  | device_connected => 201
  | device_disconnected => 404
  | card_inserted => 202
  | card_data => 200
  | card_error => 500
  | card_removed => 205
  | card_incorrect => 400
  end.

(** What a reader with the given options may do: a notification carries the
    status of its name, [console.log] is written in debug mode only, and the
    process is ended with code 1 and only when [exitOnReadError] is set. *)
Definition allowed (options : RequiredOptions) (e : Effect) : Prop :=
  match e with
  | Emit name ev => status ev = statusOf name
  | ConsoleLog _ => debug options = true
  | ProcessExit code => code = 1%Z /\ exitOnReadError options = true
  | _ => True
  end.

(** A string without white space at its start, at its end. *)
Definition startsClean (s : jsstring) : Prop :=
  match s with
  | c :: _ => isWhiteSpace c = false
  | [] => True
  end.

Definition endsClean (s : jsstring) : Prop := startsClean (rev s).

(** The flags after a sequence of signals, from the kinds of the signals
    alone. *)
Definition insertedAfter {E} (sigs : list (Signal E)) : bool :=
  fold_left (fun b sig =>
               match sig with
               | CardInserted _ _ _ => true
               | CardRemoved _ _ | DeviceDeactivated _ _ _ | CallDestroy _ => false
               | _ => b
               end) sigs false.

Definition initializedAfter {E} (sigs : list (Signal E)) : bool :=
  fold_left (fun b sig =>
               match sig with
               | CallInit _ (Ok _) => true
               | CallDestroy _ => false
               | _ => b
               end) sigs false.

(** The card memory a read command addresses: offset from its third and
    fourth byte, length from its last byte. *)
Definition readOffset (command : list byte) : N :=
  (Byte.to_N (nth 2 command x00) * 256 + Byte.to_N (nth 3 command x00))%N.

Definition readLength (command : list byte) : N :=
  Byte.to_N (List.last command x00).

(** The read commands of the personal applet in the order of the card
    memory. *)
Definition personalReads : list (list byte) :=
  [apduPerson.CMD_CID; apduPerson.CMD_THFULLNAME; apduPerson.CMD_ENFULLNAME;
   apduPerson.CMD_BIRTH; apduPerson.CMD_GENDER; apduPerson.CMD_ISSUER;
   apduPerson.CMD_ISSUE; apduPerson.CMD_EXPIRE]
  ++ photoCommands ++ [apduPerson.CMD_ADDRESS].

(** The read commands of the insurance applet in the order of the card
    memory. *)
Definition nhsoReads : list (list byte) :=
  [apduNhso.CMD_MAIN_INSCL; apduNhso.CMD_SUB_INSCL;
   apduNhso.CMD_MAIN_HOSPITAL_NAME; apduNhso.CMD_SUB_HOSPITAL_NAME;
   apduNhso.CMD_PAID_TYPE; apduNhso.CMD_ISSUE_DATE; apduNhso.CMD_EXPIRE_DATE;
   apduNhso.CMD_UPDATE_DATE; apduNhso.CMD_CHANGE_HOSPITAL_AMOUNT].

(** Each region ends where the next begins, or before it. *)
Fixpoint ascending (commands : list (list byte)) : bool :=
  match commands with
  | a :: (b :: _) as rest =>
      (readOffset a + readLength a <=? readOffset b)%N && ascending rest
  | _ => true
  end.

(** The years [y], [y + 1], ..., [n] of them, are printed with four
    characters. *)
Fixpoint yearsHaveFourDigits (n : nat) (y : Z) : bool :=
  match n with
  | O => true
  | S n' => Nat.eqb (List.length (numberToString (Int y))) 4
            && yearsHaveFourDigits n' (y + 1)
  end.

(** Reading the names of the notifications from left to right: whether a
    [card-inserted] has come that no [card-removed] has followed. *)
Definition cardShown (shown : bool) (names : list EventName) : bool :=
  fold_left (fun shown name =>
               match name with
               | card_inserted => true
               | card_removed => false
               | _ => shown
               end) names shown.

(** Every [card-removed] follows a [card-inserted] with no other
    [card-removed] between the two; [shown] tells whether such a
    [card-inserted] has come before [names]. *)
Fixpoint removedOncePerInsertion (shown : bool) (names : list EventName)
  : bool :=
  match names with
  | [] => true
  | card_removed :: rest => shown && removedOncePerInsertion false rest
  | card_inserted :: rest => removedOncePerInsertion true rest
  | _ :: rest => removedOncePerInsertion shown rest
  end.

(** The signals that clear the flag [cardInserted], and those that set it. *)
Definition clearsCard {E} (sig : Signal E) : bool :=
  match sig with
  | CardRemoved _ _ | DeviceDeactivated _ _ _ | CallDestroy _ => true
  | _ => false
  end.

Definition insertsCard {E} (sig : Signal E) : bool :=
  match sig with
  | CardInserted _ _ _ => true
  | _ => false
  end.

(** * Properties *)

Unset Implicit Arguments.

(** ** Lists, slices and strings *)

Lemma len_nonneg {A} (l : list A) : (0 <= len l)%Z.
Proof. unfold len. lia. Qed.

Lemma len_app {A} (a b : list A) : len (a ++ b) = (len a + len b)%Z.
Proof. unfold len. rewrite length_app. lia. Qed.

Lemma slice_0_take {A} (l : list A) (k : Z) :
  (0 <= k)%Z -> slice l 0 k = firstn (Z.to_nat k) l.
Proof.
  intros Hk. unfold slice, relIndex.
  pose proof (len_nonneg l) as Hl.
  replace (0 <? 0)%Z with false by reflexivity.
  destruct (k <? 0)%Z eqn:Hneg; [apply Z.ltb_lt in Hneg; lia|].
  rewrite (Z.min_l 0 (len l)) by lia.
  change (Z.to_nat 0) with 0%nat. rewrite skipn_O.
  rewrite Z.sub_0_r.
  destruct (Z.le_gt_cases k (len l)) as [Hle|Hgt].
  - rewrite Z.min_l by lia. reflexivity.
  - rewrite Z.min_r by lia. unfold len in *.
    rewrite Nat2Z.id, firstn_all.
    symmetry. apply firstn_all2. lia.
Qed.

Lemma slice_0_drop_end {A} (a b : list A) :
  (0 < len b)%Z -> slice (a ++ b) 0 (- len b) = a.
Proof.
  intros Hpos. unfold slice, relIndex.
  pose proof (len_nonneg a) as Ha. pose proof (len_nonneg b) as Hb.
  replace (0 <? 0)%Z with false by reflexivity.
  rewrite (Z.min_l 0) by (rewrite len_app; lia).
  change (Z.to_nat 0) with 0%nat. rewrite skipn_O.
  rewrite len_app.
  assert (Hto : (if (- len b <? 0)%Z
                 then Z.max (len a + len b + - len b) 0
                 else Z.min (- len b) (len a + len b)) = len a).
  { destruct (- len b <? 0)%Z eqn:Hs.
    - lia.
    - apply Z.ltb_ge in Hs. lia. }
  rewrite Hto, Z.sub_0_r. unfold len. rewrite Nat2Z.id.
  rewrite firstn_app, firstn_all, Nat.sub_diag. simpl. apply app_nil_r.
Qed.

Lemma strEq_eq (a b : jsstring) : strEq a b = true <-> a = b.
Proof.
  revert b. induction a as [|x a IH]; intros [|y b]; simpl;
    try (split; [discriminate | congruence]); try tauto.
  rewrite andb_true_iff, N.eqb_eq, IH. split.
  - intros [-> ->]. reflexivity.
  - intros [= -> ->]. auto.
Qed.

Lemma toStringHex_app (a b : Buffer) :
  toStringHex (a ++ b) = toStringHex a ++ toStringHex b.
Proof. unfold toStringHex. apply flat_map_app. Qed.

Lemma toStringHex_length (a : Buffer) :
  List.length (toStringHex a) = (2 * List.length a)%nat.
Proof. induction a as [|x a IH]; simpl; [reflexivity | rewrite IH; lia]. Qed.

Lemma byteOfHex_hexOfByte (a : byte) : byteOfHex (hexOfByte a) = Some a.
Proof. destruct a; reflexivity. Qed.

Lemma hexOfByte_inj (a b : byte) : hexOfByte a = hexOfByte b -> a = b.
Proof.
  intros H. apply (f_equal byteOfHex) in H.
  rewrite !byteOfHex_hexOfByte in H. congruence.
Qed.

(** ** Request prefix *)

Section RequestPrefix.

Context (E : Collaborators).

(** The alternate prefix is chosen exactly for a reset response that
    consists of the two bytes [3B 67] and nothing more: the program compares
    the first eight hexadecimal digits with the four digits [3b67]. *)
Lemma determineRequestCommand_alternate_iff (card : CardSt E) :
  determineRequestCommand E card = [x00; xc0; x00; x01]
  <-> getAtr E card = [x3b; x67].
Proof.
  unfold determineRequestCommand.
  destruct (strEq _ _) eqn:Heq.
  - split; [intros _ | reflexivity].
    apply strEq_eq in Heq. rewrite slice_0_take in Heq by lia.
    change (Z.to_nat 8) with 8%nat in Heq.
    destruct (getAtr E card) as [|a [|b [|c rest]]]; try discriminate Heq.
    cbn in Heq. injection Heq as Ha1 Ha2 Hb1 Hb2.
    assert (Ha : hexOfByte a = hexOfByte x3b)
      by (unfold hexOfByte; rewrite Ha1, Ha2; reflexivity).
    assert (Hb : hexOfByte b = hexOfByte x67)
      by (unfold hexOfByte; rewrite Hb1, Hb2; reflexivity).
    apply hexOfByte_inj in Ha, Hb. congruence.
  - split; [discriminate |].
    intros Hatr. rewrite Hatr in Heq. discriminate Heq.
Qed.

Lemma determineRequestCommand_cases (card : CardSt E) :
  determineRequestCommand E card = [x00; xc0; x00; x01]
  \/ determineRequestCommand E card = [x00; xc0; x00; x00].
Proof. unfold determineRequestCommand. destruct (strEq _ _); auto. Qed.

(** Every other reset response gets the default prefix, among them all that
    do not begin with [3B 67]. *)
Lemma determineRequestCommand_default (card : CardSt E) :
  getAtr E card <> [x3b; x67] ->
  determineRequestCommand E card = [x00; xc0; x00; x00].
Proof.
  intros Hne. destruct (determineRequestCommand_cases card) as [H|H]; [|exact H].
  apply determineRequestCommand_alternate_iff in H. contradiction.
Qed.

(** C1 (the code departs from it). A reset response that begins with
    [3B 67] and goes on, as the reset response of a card does, gets the
    default prefix [00 c0 00 00], not the alternate one. *)
Theorem determineRequestCommand_3b67_then_more
    (card : CardSt E) (b : byte) (rest : Buffer) :
  getAtr E card = x3b :: x67 :: b :: rest ->
  determineRequestCommand E card = [x00; xc0; x00; x00].
Proof.
  intros Hatr. apply determineRequestCommand_default.
  rewrite Hatr. discriminate.
Qed.

End RequestPrefix.

Lemma determineRequestCommand_3b67_then_more_witness :
  determineRequestCommand scripted (cardRefusing []) = [x00; xc0; x00; x00].
Proof.
  apply (determineRequestCommand_3b67_then_more scripted (cardRefusing [])
           x00 [x00; x2d; x20; x36; x00; x78; x90; x00]).
  reflexivity.
Defined.

(** ** Date conversion *)

Lemma isDigit_cases (c : N) :
  isDigit c = true ->
  In c [48; 49; 50; 51; 52; 53; 54; 55; 56; 57]%N.
Proof.
  unfold isDigit. intros H. apply andb_true_iff in H as [H1 H2].
  apply N.leb_le in H1, H2. simpl.
  assert (Hc : (c = 48 \/ c = 49 \/ c = 50 \/ c = 51 \/ c = 52 \/ c = 53
                \/ c = 54 \/ c = 55 \/ c = 56 \/ c = 57)%N) by lia.
  intuition auto.
Qed.

Ltac each_digit H :=
  apply isDigit_cases in H; simpl in H;
  repeat (destruct H as [H|H]; [subst|]); [..|contradiction].

Lemma takeDigits_digits (s : jsstring) :
  forallb isDigit s = true ->
  takeDigits 10 s = map (fun c => (c - 48)%N) s.
Proof.
  induction s as [|c s IH]; simpl; [reflexivity|].
  intros H. apply andb_true_iff in H as [Hc Hs].
  rewrite <- (IH Hs). each_digit Hc; reflexivity.
Qed.

Lemma digitsValue_decimal (s : jsstring) (acc : N) :
  forallb isDigit s = true ->
  Z.of_N (fold_left (fun a d => (a * 10 + d)%N) (map (fun c => (c - 48)%N) s) acc)
  = fold_left (fun a c => (a * 10 + (Z.of_N c - 48))%Z) s (Z.of_N acc).
Proof.
  revert acc. induction s as [|c s IH]; intros acc; simpl; [reflexivity|].
  intros H. apply andb_true_iff in H as [Hc Hs].
  rewrite (IH _ Hs). f_equal.
  unfold isDigit in Hc. apply andb_true_iff in Hc as [H1 H2].
  apply N.leb_le in H1, H2. lia.
Qed.

Lemma hexPrefixed_digits (s : jsstring) :
  forallb isDigit s = true -> hexPrefixed s = false.
Proof.
  destruct s as [|c [|x s]]; simpl; try reflexivity.
  intros H. apply andb_true_iff in H as [_ H].
  apply andb_true_iff in H as [Hx _].
  each_digit Hx; simpl; apply andb_false_r.
Qed.

(** On a non-empty string of decimal digits [parseInt] returns the number
    the digits denote, with radix 10 and without radix. *)
Lemma parseInt_digits (s : jsstring) (radix : N) :
  radix = 0%N \/ radix = 10%N ->
  s <> [] ->
  forallb isDigit s = true ->
  parseInt s radix = Int (decimalValue s).
Proof.
  intros Hr Hne Hs.
  assert (Hhex := hexPrefixed_digits s Hs).
  assert (Htake := takeDigits_digits s Hs).
  assert (Hval := digitsValue_decimal s 0 Hs).
  destruct s as [|c r]; [contradiction|].
  assert (Hc : isDigit c = true)
    by (simpl in Hs; apply andb_true_iff in Hs; tauto).
  assert (Hshape : trimStart (c :: r) = c :: r /\ signOf (c :: r) = 1%Z
                   /\ stripSign (c :: r) = c :: r).
  { each_digit Hc; repeat split; reflexivity. }
  destruct Hshape as (Htrim & Hsign & Hstrip).
  unfold parseInt. rewrite Htrim, Hsign, Hstrip, Hhex.
  destruct Hr as [-> | ->]; cbn [N.eqb negb andb orb Pos.eqb];
    rewrite ?andb_false_r; cbn [N.ltb N.compare Pos.compare Pos.compare_cont];
    cbn iota; rewrite Htake.
  - cbn [map]. unfold digitsValue. rewrite Z.mul_1_l.
    f_equal. exact Hval.
  - cbn [map]. unfold digitsValue. rewrite Z.mul_1_l.
    f_equal. exact Hval.
Qed.

(** Without a hexadecimal prefix the radix argument makes no difference. *)
Lemma parseInt_radix_10 (s : jsstring) :
  hexPrefixed (stripSign (trimStart s)) = false ->
  parseInt s 0 = parseInt s 10.
Proof.
  intros H. unfold parseInt. rewrite H. reflexivity.
Qed.

Lemma eight_characters (D : jsstring) :
  List.length D = 8%nat ->
  len D = 8%Z
  /\ slice D 0 4 = firstn 4 D
  /\ slice D 4 6 = firstn 2 (skipn 4 D)
  /\ slice D 6 8 = firstn 2 (skipn 6 D)
  /\ substring D 0 4 = firstn 4 D
  /\ substring D 4 6 = firstn 2 (skipn 4 D)
  /\ substring D 6 8 = firstn 2 (skipn 6 D).
Proof.
  destruct D as [|a [|b [|c [|d [|e [|f [|g [|h [|i D]]]]]]]]];
    try discriminate.
  intros _. repeat split; reflexivity.
Qed.

(** C2. For a string of eight decimal digits both converters return
    [Y-MM-DD], with [Y] the year minus 543 and the month and day characters
    unchanged, so the two agree on these strings; they also agree on every
    other eight-character string whose year part is not a hexadecimal
    literal. *)
Theorem date_converters_on_eight_characters (D : jsstring) :
  List.length D = 8%nat ->
  (forallb isDigit D = true ->
   convertBuddhistToGregorianDate D = Ok (gregorianDate D)
   /\ convertBuddhistDate D = gregorianDate D)
  /\ (yearHasHexPrefix D = false ->
      convertBuddhistToGregorianDate D = Ok (convertBuddhistDate D)).
Proof.
  intros Hlen.
  destruct (eight_characters D Hlen) as (Hl & S1 & S2 & S3 & T1 & T2 & T3).
  unfold convertBuddhistToGregorianDate, convertBuddhistDate.
  rewrite Hl, S1, S2, S3, T1, T2, T3. cbn [Z.eqb Pos.eqb negb orb].
  split.
  - intros Hdig.
    assert (Hyear : forallb isDigit (firstn 4 D) = true).
    { rewrite <- (firstn_skipn 4 D), forallb_app in Hdig.
      apply andb_true_iff in Hdig. tauto. }
    assert (Hne : firstn 4 D <> []).
    { intros Hnil. apply (f_equal (@List.length N)) in Hnil.
      rewrite length_firstn, Hlen in Hnil. discriminate Hnil. }
    rewrite !parseInt_digits by auto. split; reflexivity.
  - intros Hhex. rewrite parseInt_radix_10 by exact Hhex. reflexivity.
Qed.

Lemma date_converters_on_eight_characters_witness :
  convertBuddhistToGregorianDate (lit "25680315") = Ok (lit "2025-03-15")
  /\ convertBuddhistDate (lit "25680315") = lit "2025-03-15".
Proof.
  destruct (date_converters_on_eight_characters (lit "25680315") eq_refl)
    as [Hnumeric _].
  exact (Hnumeric eq_refl).
Defined.

(** Outside the numeric strings the converters can differ, since only the
    personal one passes the radix 10 to [parseInt]: of the eight characters
    [0x1F0315] the year part [0x1F] reads as 0 with the radix and as the
    hexadecimal literal 31 without it. *)
Lemma date_converters_disagree_on_hex_year :
  List.length (lit "0x1F0315") = 8%nat
  /\ convertBuddhistToGregorianDate (lit "0x1F0315") = Ok (lit "-543-03-15")
  /\ convertBuddhistDate (lit "0x1F0315") = lit "-512-03-15"
  /\ convertBuddhistToGregorianDate (lit "0x1F0315")
     <> Ok (convertBuddhistDate (lit "0x1F0315")).
Proof. repeat split; try reflexivity. discriminate. Qed.

(** C6. On a string whose length is not 8 the personal converter throws and
    the insurance converter returns the empty string. *)
Theorem date_converters_on_other_lengths (s : jsstring) :
  List.length s <> 8%nat ->
  convertBuddhistToGregorianDate s
  = Throw (Error (lit "Invalid date format: " ++ s ++ lit ". Expected YYYYMMDD."))
  /\ convertBuddhistDate s = [].
Proof.
  intros Hlen.
  assert (Hne : (len s =? 8)%Z = false)
    by (apply Z.eqb_neq; unfold len; lia).
  unfold convertBuddhistToGregorianDate, convertBuddhistDate.
  rewrite Hne, orb_true_r. split; reflexivity.
Qed.

Lemma date_converters_on_other_lengths_witness :
  convertBuddhistToGregorianDate (lit "2568031")
  = Throw (Error (lit "Invalid date format: " ++ lit "2568031"
                  ++ lit ". Expected YYYYMMDD."))
  /\ convertBuddhistDate (lit "2568031") = [].
Proof.
  apply (date_converters_on_other_lengths (lit "2568031")).
  intros H. vm_compute in H. discriminate H.
Defined.

(** ** Name parsing *)

Section NameParsing.

Context (E : Collaborators).



End NameParsing.


(** ** The monad *)

Lemma bind_Ok_inv {S A B} (m : M S A) (k : A -> M S B) w b w2 :
  bind m k w = (Ok b, w2) ->
  exists a w1, m w = (Ok a, w1) /\ k a w1 = (Ok b, w2).
Proof.
  unfold bind. destruct (m w) as [[a|e] w1]; [eauto | discriminate].
Qed.

Lemma bind_Ok {S A B} (m : M S A) (k : A -> M S B) w a w1 :
  m w = (Ok a, w1) -> bind m k w = k a w1.
Proof. unfold bind. intros ->. reflexivity. Qed.

Section Emits.

Context {S : Type} (P : Effect -> Prop).

Lemma emits_ret {A} (a : A) : emits P (ret a : M S A).
Proof. intros w. exists []. simpl. rewrite app_nil_r. auto. Qed.

Lemma emits_throw {A} (e : Thrown) : emits P (throw e : M S A).
Proof. intros w. exists []. simpl. rewrite app_nil_r. auto. Qed.

Lemma emits_liftResult {A} (r : Result A) : emits P (liftResult r : M S A).
Proof. intros w. exists []. simpl. rewrite app_nil_r. auto. Qed.

Lemma emits_get : emits P (get : M S S).
Proof. intros w. exists []. simpl. rewrite app_nil_r. auto. Qed.

Lemma emits_put (s : S) : emits P (put s).
Proof. intros w. exists []. simpl. rewrite app_nil_r. auto. Qed.

Lemma emits_effect (e : Effect) : P e -> emits P (effect e : M S unit).
Proof. intros He w. exists [e]. simpl. auto. Qed.

Lemma emits_bind {A B} (m : M S A) (k : A -> M S B) :
  emits P m -> (forall a, emits P (k a)) -> emits P (bind m k).
Proof.
  intros Hm Hk w. unfold bind.
  destruct (Hm w) as (n1 & E1 & F1).
  destruct (m w) as [[a|e] w1]; simpl in *.
  - destruct (Hk a w1) as (n2 & E2 & F2).
    exists (n1 ++ n2). rewrite E2, E1, app_assoc.
    split; [reflexivity | apply Forall_app; auto].
  - exists n1. auto.
Qed.

Lemma emits_tryCatch {A} (m : M S A) (h : Thrown -> M S A) :
  emits P m -> (forall e, emits P (h e)) -> emits P (tryCatch m h).
Proof.
  intros Hm Hh w. unfold tryCatch.
  destruct (Hm w) as (n1 & E1 & F1).
  destruct (m w) as [[a|e] w1]; simpl in *.
  - exists n1. auto.
  - destruct (Hh e w1) as (n2 & E2 & F2).
    exists (n1 ++ n2). rewrite E2, E1, app_assoc.
    split; [reflexivity | apply Forall_app; auto].
Qed.

Lemma emits_mono {A} (Q : Effect -> Prop) (m : M S A) :
  (forall e, Q e -> P e) -> emits Q m -> emits P m.
Proof.
  intros HQ Hm w. destruct (Hm w) as (n & En & Fn).
  exists n. split; [exact En | eapply Forall_impl; eauto].
Qed.

End Emits.

Lemma emits_issueCommand E (P : Effect -> Prop) (bytes : list byte) :
  P (Issue bytes) -> emits P (issueCommand E bytes).
Proof.
  intros HP w. exists [Issue bytes]. unfold issueCommand.
  destruct (issue E (state w) bytes). simpl. auto.
Qed.

Lemma emits_withCard E (P : Effect -> Prop) {A} (card : CardSt E)
    (m : M (CardSt E) A) :
  emits P m -> emits P (withCard E card m).
Proof.
  intros Hm w. unfold withCard.
  destruct (Hm {| state := card; trace := trace w |}) as (n & En & Fn).
  destruct (m _) as [r w']. simpl in *. eauto.
Qed.

Create HintDb emits_db.

Ltac head_of t :=
  lazymatch t with
  | ?f _ => head_of f
  | _ => t
  end.

(** The effects of one pass through a program path: [leaf] proves the
    property of each single effect; a function that is not a combinator of
    the monad is looked up among the hints or unfolded. *)
Ltac emits_steps leaf :=
  cbv beta zeta;
  lazymatch goal with
  | |- emits _ (bind _ _) =>
      apply emits_bind; [emits_steps leaf | intros; emits_steps leaf]
  | |- emits _ (tryCatch _ _) =>
      apply emits_tryCatch; [emits_steps leaf | intros; emits_steps leaf]
  | |- emits _ (ret _) => apply emits_ret
  | |- emits _ (throw _) => apply emits_throw
  | |- emits _ (liftResult _) => apply emits_liftResult
  | |- emits _ get => apply emits_get
  | |- emits _ (put _) => apply emits_put
  | |- emits _ (effect _) => apply emits_effect; leaf
  | |- emits _ (issueCommand _ _) => apply emits_issueCommand; leaf
  | |- emits _ (withCard _ _ _) => apply emits_withCard; emits_steps leaf
  | |- emits _ (if ?b then _ else _) => destruct b; emits_steps leaf
  | |- emits _ (match ?x with _ => _ end) => destruct x; emits_steps leaf
  | |- emits _ ?m =>
      first [ assumption
            | solve [auto with emits_db]
            | let h := head_of m in unfold h; emits_steps leaf ]
  end.

(** ** The read cycle is quiet up to its last step *)

Section Quiet.

Context (E : Collaborators).

Lemma readPhotoParts_quiet req names acc :
  emits quiet (readPhotoParts E req names acc).
Proof.
  revert acc. induction names as [|name names IH]; intros acc;
    cbn [readPhotoParts].
  - apply emits_ret.
  - apply emits_bind; [emits_steps ltac:(exact I) | intros; apply IH].
Qed.

Lemma assignUntilThrow_quiet (todo : list (string * M (CardSt E) jsstring)) acc :
  Forall (fun kr => emits quiet (snd kr)) todo ->
  emits quiet (assignUntilThrow E todo acc).
Proof.
  intros Hall. revert acc.
  induction Hall as [|[key read] todo Hread _ IH]; intros acc;
    cbn [assignUntilThrow].
  - apply emits_ret.
  - intros w. destruct (Hread w) as (n1 & E1 & F1). simpl in E1.
    destruct (read w) as [[v|e] w1]; simpl in E1.
    + destruct (IH (<[key := v]> acc) w1) as (n2 & E2 & F2).
      exists (n1 ++ n2). rewrite E2, E1, app_assoc.
      split; [reflexivity | apply Forall_app; auto].
    + exists (n1 ++ [ConsoleWarn (lit "Some NHSO fields could not be extracted:")]).
      simpl. rewrite E1, app_assoc.
      split; [reflexivity | apply Forall_app; split; [exact F1|]].
      constructor; [exact I | constructor].
Qed.

#[local] Hint Resolve readPhotoParts_quiet : emits_db.

Lemma PersonalApplet_getInfo_quiet req queryFields :
  emits quiet (PersonalApplet_getInfo E req queryFields).
Proof. emits_steps ltac:(exact I). Qed.

Lemma extractNhsoData_quiet req : emits quiet (extractNhsoData E req).
Proof.
  unfold extractNhsoData. apply assignUntilThrow_quiet.
  unfold nhsoAssignments.
  repeat (constructor; [cbn [snd]; emits_steps ltac:(exact I)|]).
  constructor.
Qed.

#[local] Hint Resolve PersonalApplet_getInfo_quiet extractNhsoData_quiet
  : emits_db.

Lemma NhsoApplet_getInfo_quiet req : emits quiet (NhsoApplet_getInfo E req).
Proof. emits_steps ltac:(exact I). Qed.

Lemma getLaser_quiet req : emits quiet (getLaser E req).
Proof. emits_steps ltac:(exact I). Qed.

#[local] Hint Resolve NhsoApplet_getInfo_quiet getLaser_quiet : emits_db.

Lemma extractPersonalData_quiet req d :
  emits quiet (extractPersonalData E req d).
Proof. emits_steps ltac:(exact I). Qed.

Lemma extractHealthData_quiet options req d :
  emits quiet (extractHealthData E options req d).
Proof. emits_steps ltac:(exact I). Qed.

Lemma extractLaserData_quiet options req d :
  emits quiet (extractLaserData E options req d).
Proof. emits_steps ltac:(exact I). Qed.

End Quiet.

(** ** Notifications of a read cycle *)

Lemma notifications_app (a b : list Effect) :
  notifications (a ++ b) = notifications a ++ notifications b.
Proof. unfold notifications. apply flat_map_app. Qed.

Lemma notifications_quiet (l : list Effect) :
  Forall quiet l -> notifications l = [].
Proof.
  induction 1 as [|e l He _ IH]; [reflexivity|].
  destruct e; simpl in *; solve [contradiction | exact IH].
Qed.

Lemma quiet_keeps_notifications {S A} (m : M S A) (w : World S) :
  emits quiet m ->
  notifications (trace (snd (m w))) = notifications (trace w).
Proof.
  intros Hm. destruct (Hm w) as (n & En & Fn).
  rewrite En, notifications_app, (notifications_quiet _ Fn). apply app_nil_r.
Qed.

Section ReadCycle.

Context (E : Collaborators) (options : RequiredOptions).

Lemma logDebug_run {S} (message : jsstring) (w : World S) :
  logDebug options message w = (Ok tt, snd (logDebug options message w))
  /\ state (snd (logDebug options message w)) = state w
  /\ notifications (trace (snd (logDebug options message w)))
     = notifications (trace w).
Proof.
  unfold logDebug. destruct (debug options); cbn; repeat split.
  rewrite notifications_app. cbn. apply app_nil_r.
Qed.

Lemma handleReadError_run {S} (error : Thrown) (w : World S) :
  exists message ev,
    handleReadError options error w
    = (Ok tt,
       {| state := state w;
          trace := trace w
                   ++ [ConsoleError message; Emit card_error ev]
                   ++ (if exitOnReadError options
                       then [ConsoleError
                               (lit "[ThaiIdCardReader ERROR] Exiting process due to read error (exitOnReadError: true)");
                             ProcessExit 1]
                       else []) |})
    /\ status ev = 500%Z.
Proof.
  unfold handleReadError, logError, emit, effect, bind.
  do 2 eexists.
  split; [destruct (exitOnReadError options); cbn; rewrite <- ?app_assoc;
          reflexivity | reflexivity].
Qed.

(** The insurance and laser steps never throw. *)
Lemma extractHealthData_returns req d (w : World (CardSt E)) :
  exists d' w', extractHealthData E options req d w = (Ok d', w')
    /\ (d' = d \/ exists nhsoData, d' = <["nhso" := VObj nhsoData]> d).
Proof.
  unfold extractHealthData, tryCatch, bind.
  destruct (NhsoApplet_getInfo E req w) as [[n|e] w1].
  - cbn. eauto 6.
  - destruct (logDebug_run (lit "NHSO data not available or failed to read") w1)
      as (Hrun & _). rewrite Hrun. cbn. eauto.
Qed.

Lemma extractLaserData_returns req d (w : World (CardSt E)) :
  exists v w', extractLaserData E options req d w
               = (Ok (<["laserId" := VStr v]> d), w').
Proof.
  unfold extractLaserData, tryCatch, bind.
  destruct (getLaser E req w) as [[v|e] w1].
  - cbn. eauto.
  - destruct (logDebug_run (lit "Laser ID not available or failed to read") w1)
      as (Hrun & _). rewrite Hrun. cbn. eauto.
Qed.

End ReadCycle.

(** ** The personal record and its keys *)

Section PersonalRecord.

Context (E : Collaborators).

Lemma readIf_keys rf k ex (d d' : ThaiIdCardData) (w w' : World (CardSt E)) :
  readIf E rf k ex d w = (Ok d', w') ->
  forall key : string,
    is_Some (d' !! key)
    <-> is_Some (d !! key) \/ (key = k /\ default false (rf !! k) = true).
Proof.
  unfold readIf. destruct (default false (rf !! k)) eqn:Hk.
  - intros H. apply bind_Ok_inv in H as (v & w1 & _ & H).
    injection H as <- _. intros key.
    rewrite lookup_insert_is_Some. split.
    + intros [<- | [_ H]]; auto.
    + intros [H | [-> _]]; [|auto].
      destruct (decide (k = key)); auto.
  - intros [= <- _] key. split; [auto | intros [H | [_ H]]; [exact H | discriminate H]].
Qed.

(** The record [getInfo] returns has an entry exactly for the personal
    fields that were asked for. *)
Lemma PersonalApplet_getInfo_keys req queryFields rec (w w' : World (CardSt E)) :
  PersonalApplet_getInfo E req queryFields w = (Ok rec, w') ->
  forall key : string,
    is_Some (rec !! key)
    <-> In key personalKeys
        /\ default false
             (createFieldLookup (default ["cid"%string] queryFields) !! key) = true.
Proof.
  unfold PersonalApplet_getInfo. cbv zeta.
  set (rf := createFieldLookup _).
  intros H.
  apply bind_Ok_inv in H as (? & w0 & _ & H).
  apply bind_Ok_inv in H as (d1 & w1 & H1 & H).
  apply bind_Ok_inv in H as (d2 & w2 & H2 & H).
  apply bind_Ok_inv in H as (d3 & w3 & H3 & H).
  apply bind_Ok_inv in H as (d4 & w4 & H4 & H).
  apply bind_Ok_inv in H as (d5 & w5 & H5 & H).
  apply bind_Ok_inv in H as (d6 & w6 & H6 & H).
  apply bind_Ok_inv in H as (d7 & w7 & H7 & H).
  apply bind_Ok_inv in H as (d8 & w8 & H8 & H).
  apply bind_Ok_inv in H as (d9 & w9 & H9 & H).
  apply bind_Ok_inv in H as (d10 & w10 & H10 & H).
  injection H as <- _.
  intros key.
  rewrite (readIf_keys _ _ _ _ _ _ _ H10 key), (readIf_keys _ _ _ _ _ _ _ H9 key),
    (readIf_keys _ _ _ _ _ _ _ H8 key), (readIf_keys _ _ _ _ _ _ _ H7 key),
    (readIf_keys _ _ _ _ _ _ _ H6 key), (readIf_keys _ _ _ _ _ _ _ H5 key),
    (readIf_keys _ _ _ _ _ _ _ H4 key), (readIf_keys _ _ _ _ _ _ _ H3 key),
    (readIf_keys _ _ _ _ _ _ _ H2 key), (readIf_keys _ _ _ _ _ _ _ H1 key).
  rewrite lookup_empty. unfold personalKeys. cbn [In].
  split.
  - intros Hk.
    repeat (destruct Hk as [Hk | Hk]);
      try (destruct Hk as [-> Hk]; split; [tauto | exact Hk]).
    destruct Hk as [? Hk]. discriminate Hk.
  - intros [Hin Hrf].
    repeat (destruct Hin as [<- | Hin]; [tauto|]). contradiction.
Qed.

Lemma extractPersonalData_Ok_inv req d d1 (w w1 : World (CardSt E)) :
  extractPersonalData E req d w = (Ok d1, w1) ->
  exists p, PersonalApplet_getInfo E req (Some personalKeys) w = (Ok p, w1)
            /\ d1 = p ∪ d.
Proof.
  unfold extractPersonalData, tryCatch. cbv zeta.
  change (List.filter _ ALL_FIELDS) with personalKeys.
  change (0 <? len personalKeys)%Z with true. cbv iota.
  destruct (bind _ _ w) as [[a|e] w2] eqn:Hb.
  - intros [= <- <-]. apply bind_Ok_inv in Hb as (p & w3 & Hp & Hr).
    injection Hr as <- <-. eauto.
  - unfold bind, logError, effect, throw. discriminate.
Qed.

(** The personal step puts no [nhso] and no [laserId] into an empty record. *)
Lemma extractPersonalData_other_keys req d1 (w w1 : World (CardSt E)) :
  extractPersonalData E req ∅ w = (Ok d1, w1) ->
  d1 !! "nhso"%string = None /\ d1 !! "laserId"%string = None.
Proof.
  intros H. apply extractPersonalData_Ok_inv in H as (p & Hp & ->).
  rewrite (right_id_L ∅ (∪)).
  pose proof (PersonalApplet_getInfo_keys _ _ _ _ _ Hp) as Hkeys.
  split; apply eq_None_not_Some; rewrite Hkeys; intros [Hin _];
    cbn in Hin; repeat (destruct Hin as [Hin | Hin]; [discriminate Hin|]);
    contradiction.
Qed.

(** C7 (as amended). Without argument [getInfo] asks for [cid] alone, and
    the record it returns has an entry for [cid] and for no other field; with
    the ten personal fields given, as the reader passes them, the record has
    an entry for every one of them. *)
Theorem PersonalApplet_getInfo_default_fields req rec (w w' : World (CardSt E)) :
  (PersonalApplet_getInfo E req None w = (Ok rec, w') ->
   PersonalApplet_getInfo E req None w
   = PersonalApplet_getInfo E req (Some ["cid"%string]) w
   /\ forall key : string, is_Some (rec !! key) <-> key = "cid"%string)
  /\ (PersonalApplet_getInfo E req (Some personalKeys) w = (Ok rec, w') ->
      forall key : string, In key personalKeys -> is_Some (rec !! key)).
Proof.
  split.
  - intros H. split; [reflexivity|]. intros key.
    rewrite (PersonalApplet_getInfo_keys _ _ _ _ _ H key).
    split.
    + intros [Hin Hrf]. cbn in Hin.
      repeat (destruct Hin as [<- | Hin];
              [first [reflexivity | vm_compute in Hrf; discriminate Hrf]|]).
      contradiction.
    + intros ->. split; [cbn; tauto | reflexivity].
  - intros H key Hin.
    rewrite (PersonalApplet_getInfo_keys _ _ _ _ _ H key).
    split; [exact Hin|]. cbn in Hin.
    repeat (destruct Hin as [<- | Hin]; [reflexivity|]). contradiction.
Qed.

End PersonalRecord.

Lemma PersonalApplet_getInfo_default_fields_witness :
  let req := [x00; xc0; x00; x00] in
  let w := onCard (cardRefusing []) in
  (forall key : string,
     is_Some (returned (PersonalApplet_getInfo scripted req None w) ∅ !! key)
     <-> key = "cid"%string)
  /\ (forall key : string,
        In key personalKeys ->
        is_Some (returned (PersonalApplet_getInfo scripted req (Some personalKeys) w) ∅
                 !! key)).
Proof.
  intros req w. split.
  - apply (PersonalApplet_getInfo_default_fields scripted req
             (returned (PersonalApplet_getInfo scripted req None w) ∅) w
             (snd (PersonalApplet_getInfo scripted req None w))).
    vm_compute. reflexivity.
  - apply (PersonalApplet_getInfo_default_fields scripted req
             (returned (PersonalApplet_getInfo scripted req (Some personalKeys) w) ∅)
             w (snd (PersonalApplet_getInfo scripted req (Some personalKeys) w))).
    vm_compute. reflexivity.
Defined.

(** C7 (as stated, refuted). On a card that answers every command, a call
    of [getInfo] without argument returns a record with [cid] alone: the
    name, for one, has no entry. *)
Lemma PersonalApplet_getInfo_default_omits_name :
  let r := PersonalApplet_getInfo scripted [x00; xc0; x00; x00] None
             (onCard (cardRefusing [])) in
  fst r = Ok {[ "cid"%string := VStr (lit "25680315") ]}
  /\ returned r ∅ !! "name"%string = None
  /\ issued (trace (snd r))
     = [apduPerson.SELECT ++ apduPerson.THAI_CARD; apduPerson.CMD_CID;
        [x00; xc0; x00; x00; x0d]].
Proof. vm_compute. repeat split. Qed.

(** ** The read cycle *)

Section ReadCycleOutcome.

Context (E : Collaborators) (options : RequiredOptions).

(** A read cycle, step by step. *)
Lemma processCardData_run (w : World (CardSt E)) :
  processCardData E options w
  = let req := determineRequestCommand E (state w) in
    match extractPersonalData E req ∅ (cycleStart options w) with
    | (Throw e, w1) => handleReadError options e w1
    | (Ok d1, w1) =>
        match extractHealthData E options req d1 w1 with
        | (Throw e, w2) => handleReadError options e w2
        | (Ok d2, w2) =>
            match extractLaserData E options req d2 w2 with
            | (Throw e, w3) => handleReadError options e w3
            | (Ok d3, w3) =>
                (logDebug options (lit "Card data extracted successfully");;;
                 emit card_data (snd (cardDataEvent d3))) w3
            end
        end
    end.
Proof.
  unfold processCardData, extractCardData, tryCatch, bind, get, ret, cycleStart.
  destruct (logDebug_run options (lit "Starting card data extraction...") w)
    as (Hrun & Hstate & _).
  rewrite Hrun. cbn [snd]. rewrite Hstate.
  destruct (extractPersonalData E _ ∅ _) as [[d1|e] w1]; [|reflexivity].
  destruct (extractHealthData E options _ d1 w1) as [[d2|e] w2]; [|reflexivity].
  destruct (extractLaserData E options _ d2 w2) as [[d3|e] w3]; [|reflexivity].
  destruct (logDebug_run options (lit "Card data extracted successfully") w3)
    as (Hrun3 & _). rewrite Hrun3. reflexivity.
Qed.

Lemma cycleStart_notifications {S} (w : World S) :
  notifications (trace (cycleStart options w)) = notifications (trace w).
Proof.
  unfold cycleStart.
  apply (logDebug_run options (lit "Starting card data extraction...") w).
Qed.

Lemma handleReadError_notifications {S} (e : Thrown) (w : World S) :
  exists ev,
    fst (handleReadError options e w) = Ok tt
    /\ notifications (trace (snd (handleReadError options e w)))
       = notifications (trace w) ++ [(card_error, ev)]
    /\ status ev = 500%Z.
Proof.
  destruct (handleReadError_run options e w) as (m & ev & Hrun & Hst).
  exists ev. rewrite Hrun. cbn [fst snd trace].
  repeat split; [|exact Hst].
  rewrite !notifications_app. destruct (exitOnReadError options); reflexivity.
Qed.

Lemma emit_after_logDebug {S} message name ev (w : World S) :
  fst ((logDebug options message;;; emit name ev) w) = Ok tt
  /\ notifications (trace (snd ((logDebug options message;;; emit name ev) w)))
     = notifications (trace w) ++ [(name, ev)].
Proof.
  unfold bind, logDebug, emit, effect, ret.
  destruct (debug options); cbn; rewrite !notifications_app; cbn;
    rewrite ?app_nil_r; split; reflexivity.
Qed.

(** When the three steps return, the cycle ends with one [card-data]
    notification that carries the record of the last step. *)
Lemma processCardData_success (w w1 w2 w3 : World (CardSt E)) d1 d2 d3 :
  let req := determineRequestCommand E (state w) in
  extractPersonalData E req ∅ (cycleStart options w) = (Ok d1, w1) ->
  extractHealthData E options req d1 w1 = (Ok d2, w2) ->
  extractLaserData E options req d2 w2 = (Ok d3, w3) ->
  fst (processCardData E options w) = Ok tt
  /\ notifications (trace (snd (processCardData E options w)))
     = notifications (trace w) ++ [cardDataEvent d3].
Proof.
  intros req H1 H2 H3. rewrite processCardData_run. cbv zeta. fold req.
  rewrite H1, H2, H3.
  destruct (emit_after_logDebug (lit "Card data extracted successfully")
              card_data (snd (cardDataEvent d3)) w3) as (Hok & Hnote).
  split; [exact Hok|]. rewrite Hnote. f_equal.
  pose proof (quiet_keeps_notifications (extractLaserData E options req d2) w2
                (extractLaserData_quiet E options req d2)) as Q3.
  pose proof (quiet_keeps_notifications (extractHealthData E options req d1) w1
                (extractHealthData_quiet E options req d1)) as Q2.
  pose proof (quiet_keeps_notifications (extractPersonalData E req ∅)
                (cycleStart options w) (extractPersonalData_quiet E req ∅)) as Q1.
  rewrite H1 in Q1. rewrite H2 in Q2. rewrite H3 in Q3. cbn [snd] in *.
  rewrite Q3, Q2, Q1. apply cycleStart_notifications.
Qed.

End ReadCycleOutcome.

Section FailurePolicy.

Context (E : Collaborators) (options : RequiredOptions).

Lemma extractHealthData_when_getInfo_throws req d e (w w1 : World (CardSt E)) :
  NhsoApplet_getInfo E req w = (Throw e, w1) ->
  exists w2, extractHealthData E options req d w = (Ok d, w2).
Proof.
  intros H. unfold extractHealthData, tryCatch, bind. rewrite H.
  destruct (logDebug_run options (lit "NHSO data not available or failed to read") w1)
    as (Hrun & _). rewrite Hrun. eauto.
Qed.

Lemma extractLaserData_when_getLaser_throws req d e (w w1 : World (CardSt E)) :
  getLaser E req w = (Throw e, w1) ->
  exists w2, extractLaserData E options req d w
             = (Ok (<["laserId"%string := VStr []]> d), w2).
Proof.
  intros H. unfold extractLaserData, tryCatch, bind. rewrite H.
  destruct (logDebug_run options (lit "Laser ID not available or failed to read") w1)
    as (Hrun & _). rewrite Hrun. eauto.
Qed.

(** C4. In a read cycle: when the personal step throws, the cycle's only
    notification is one [card-error] with status 500, so no [card-data] is
    emitted; when the personal step returns and the insurance read throws,
    the cycle emits [card-data] with a record without [nhso]; when the
    laser read throws, it emits [card-data] with [laserId] the empty string. *)
Theorem read_cycle_failure_policy (w : World (CardSt E)) :
  let req := determineRequestCommand E (state w) in
  let outcome := processCardData E options w in
  (forall e w1,
     extractPersonalData E req ∅ (cycleStart options w) = (Throw e, w1) ->
     exists ev,
       fst outcome = Ok tt
       /\ notifications (trace (snd outcome))
          = notifications (trace w) ++ [(card_error, ev)]
       /\ status ev = 500%Z)
  /\ (forall d1 w1 e w2,
        extractPersonalData E req ∅ (cycleStart options w) = (Ok d1, w1) ->
        NhsoApplet_getInfo E req w1 = (Throw e, w2) ->
        exists record,
          fst outcome = Ok tt
          /\ notifications (trace (snd outcome))
             = notifications (trace w) ++ [cardDataEvent record]
          /\ record !! "nhso"%string = None)
  /\ (forall d1 w1 d2 w2 e w3,
        extractPersonalData E req ∅ (cycleStart options w) = (Ok d1, w1) ->
        extractHealthData E options req d1 w1 = (Ok d2, w2) ->
        getLaser E req w2 = (Throw e, w3) ->
        exists record,
          fst outcome = Ok tt
          /\ notifications (trace (snd outcome))
             = notifications (trace w) ++ [cardDataEvent record]
          /\ record !! "laserId"%string = Some (VStr [])).
Proof.
  intros req outcome. subst outcome. repeat split.
  - intros e w1 H1. rewrite processCardData_run. cbv zeta. fold req.
    rewrite H1.
    destruct (handleReadError_notifications options e w1) as (ev & Hok & Hn & Hs).
    exists ev. split; [exact Hok|]. split; [|exact Hs].
    rewrite Hn. f_equal.
    pose proof (quiet_keeps_notifications (extractPersonalData E req ∅)
                  (cycleStart options w) (extractPersonalData_quiet E req ∅)) as Q1.
    rewrite H1 in Q1. cbn [snd] in Q1. rewrite Q1.
    apply cycleStart_notifications.
  - intros d1 w1 e w2 H1 Hn.
    destruct (extractHealthData_when_getInfo_throws req d1 e w1 w2 Hn) as (w2' & H2).
    destruct (extractLaserData_returns E options req d1 w2') as (v & w3 & H3).
    destruct (processCardData_success E options w w1 w2' w3 d1 d1 _ H1 H2 H3)
      as (Hok & Hnote).
    exists (<["laserId"%string := VStr v]> d1).
    split; [exact Hok|]. split; [exact Hnote|].
    rewrite lookup_insert_ne by discriminate.
    apply (extractPersonalData_other_keys E req d1 _ w1 H1).
  - intros d1 w1 d2 w2 e w3 H1 H2 Hl.
    destruct (extractLaserData_when_getLaser_throws req d2 e w2 w3 Hl) as (w3' & H3).
    destruct (processCardData_success E options w w1 w2 w3' d1 d2 _ H1 H2 H3)
      as (Hok & Hnote).
    exists (<["laserId"%string := VStr []]> d2).
    split; [exact Hok|]. split; [exact Hnote|].
    apply lookup_insert_eq.
Qed.

End FailurePolicy.

(** ** Options *)

Section Options.

Context (E : Collaborators).

(** C10. An option that is not given takes its default, [exitOnReadError]
    true and [debug] false, also when no options object is given at all;
    and with [exitOnReadError] defaulted, a read cycle whose personal step
    throws emits [card-error] and then ends the process with exit code 1. *)
Theorem default_options_exit_on_read_error
    (given : option CardReaderOptions) (w : World (CardSt E)) :
  let options := newOptions given in
  newOptions None = {| exitOnReadError := true; debug := false |}
  /\ ((forall o, given = Some o -> exitOnReadError_given o = None) ->
      exitOnReadError options = true)
  /\ ((forall o, given = Some o -> debug_given o = None) ->
      debug options = false)
  /\ ((forall o, given = Some o -> exitOnReadError_given o = None) ->
      forall e w1,
        extractPersonalData E (determineRequestCommand E (state w)) ∅
          (cycleStart options w) = (Throw e, w1) ->
        exists message ev,
          processCardData E options w
          = (Ok tt,
             {| state := state w1;
                trace := trace w1
                         ++ [ConsoleError message;
                             Emit card_error ev;
                             ConsoleError
                               (lit "[ThaiIdCardReader ERROR] Exiting process due to read error (exitOnReadError: true)");
                             ProcessExit 1] |})
          /\ status ev = 500%Z).
Proof.
  intros options.
  assert (Hexit : (forall o, given = Some o -> exitOnReadError_given o = None) ->
                  exitOnReadError options = true).
  { intros Hgiven. subst options. destruct given as [o|]; [|reflexivity].
    unfold newOptions, validateAndSetOptions. cbn.
    rewrite (Hgiven o eq_refl). reflexivity. }
  split; [reflexivity|]. split; [exact Hexit|]. split.
  - intros Hgiven. subst options. destruct given as [o|]; [|reflexivity].
    unfold newOptions, validateAndSetOptions. cbn.
    rewrite (Hgiven o eq_refl). reflexivity.
  - intros Hgiven e w1 H1. rewrite processCardData_run. cbv zeta.
    rewrite H1.
    destruct (handleReadError_run options e w1) as (m & ev & Hrun & Hs).
    rewrite (Hexit Hgiven) in Hrun. exists m, ev. split; [exact Hrun | exact Hs].
Qed.

End Options.

Lemma read_cycle_failure_policy_witness :
  let options := {| exitOnReadError := false; debug := false |} in
  let cycle c := processCardData scripted options (onCard (cardRefusing [c])) in
  (exists ev,
     fst (cycle apduPerson.CMD_CID) = Ok tt
     /\ notifications (trace (snd (cycle apduPerson.CMD_CID))) = [(card_error, ev)]
     /\ status ev = 500%Z)
  /\ (exists record,
        fst (cycle apduNhso.SELECT) = Ok tt
        /\ notifications (trace (snd (cycle apduNhso.SELECT)))
           = [cardDataEvent record]
        /\ record !! "nhso"%string = None)
  /\ (exists record,
        fst (cycle laserSelect) = Ok tt
        /\ notifications (trace (snd (cycle laserSelect)))
           = [cardDataEvent record]
        /\ record !! "laserId"%string = Some (VStr [])).
Proof.
  intros options cycle.
  set (req := [x00; xc0; x00; x00]).
  split; [|split].
  - set (w := onCard (cardRefusing [apduPerson.CMD_CID])).
    set (r1 := extractPersonalData scripted req ∅ (cycleStart options w)).
    destruct (read_cycle_failure_policy scripted options w) as (Ha & _ & _).
    apply (Ha (thrownBy r1) (snd r1)).
    vm_compute. reflexivity.
  - set (w := onCard (cardRefusing [apduNhso.SELECT])).
    set (r1 := extractPersonalData scripted req ∅ (cycleStart options w)).
    set (r2 := NhsoApplet_getInfo scripted req (snd r1)).
    destruct (read_cycle_failure_policy scripted options w) as (_ & Hb & _).
    apply (Hb (returned r1 ∅) (snd r1) (thrownBy r2) (snd r2)).
    + vm_compute. reflexivity.
    + vm_compute. reflexivity.
  - set (w := onCard (cardRefusing [laserSelect])).
    set (r1 := extractPersonalData scripted req ∅ (cycleStart options w)).
    set (r2 := extractHealthData scripted options req (returned r1 ∅) (snd r1)).
    set (r3 := getLaser scripted req (snd r2)).
    destruct (read_cycle_failure_policy scripted options w) as (_ & _ & Hc).
    apply (Hc (returned r1 ∅) (snd r1) (returned r2 ∅) (snd r2)
              (thrownBy r3) (snd r3)).
    + vm_compute. reflexivity.
    + vm_compute. reflexivity.
    + vm_compute. reflexivity.
Defined.

Lemma default_options_exit_on_read_error_witness :
  let w := onCard (cardRefusing [apduPerson.CMD_CID]) in
  exists message ev,
    processCardData scripted (newOptions None) w
    = (Ok tt,
       {| state := cardRefusing [apduPerson.CMD_CID];
          trace := [Issue (apduPerson.SELECT ++ apduPerson.THAI_CARD);
                    Issue apduPerson.CMD_CID;
                    ConsoleError (lit "[ThaiIdCardReader ERROR] Failed to read personal data")]
                   ++ [ConsoleError message;
                       Emit card_error ev;
                       ConsoleError
                         (lit "[ThaiIdCardReader ERROR] Exiting process due to read error (exitOnReadError: true)");
                       ProcessExit 1] |})
    /\ status ev = 500%Z.
Proof.
  intros w.
  set (r1 := extractPersonalData scripted [x00; xc0; x00; x00] ∅
               (cycleStart (newOptions None) w)).
  assert (Htrace : trace (snd r1)
                   = [Issue (apduPerson.SELECT ++ apduPerson.THAI_CARD);
                      Issue apduPerson.CMD_CID;
                      ConsoleError (lit "[ThaiIdCardReader ERROR] Failed to read personal data")])
    by (vm_compute; reflexivity).
  assert (Hstate : state (snd r1) = cardRefusing [apduPerson.CMD_CID])
    by (vm_compute; reflexivity).
  rewrite <- Htrace, <- Hstate.
  destruct (default_options_exit_on_read_error scripted None w)
    as (_ & _ & _ & H).
  apply (H (fun o (Hsome : None = Some o) =>
              match Hsome in _ = x
                    return match x with
                           | Some _ => exitOnReadError_given o = None
                           | None => True
                           end
              with eq_refl => I end)
           (thrownBy r1) (snd r1)).
  vm_compute. reflexivity.
Defined.

(** ** Insurance data: partial reads *)

Lemma assignAll_lookup_other (kvs : list (string * jsstring)) (o : NhsoData)
    (key : string) :
  ~ In key (map fst kvs) -> assignAll kvs o !! key = o !! key.
Proof.
  revert o. induction kvs as [|[k v] kvs IH]; intros o Hnot; [reflexivity|].
  cbn in *. unfold assignAll in *. cbn [fold_left fst snd].
  rewrite IH by tauto. apply lookup_insert_ne. tauto.
Qed.

Lemma assignAll_lookup_assigned (kvs : list (string * jsstring)) (o : NhsoData)
    (key : string) :
  In key (map fst kvs) -> is_Some (assignAll kvs o !! key).
Proof.
  revert o. induction kvs as [|[k v] kvs IH]; intros o Hin; [contradiction|].
  unfold assignAll in *. cbn [fold_left fst snd].
  destruct (in_dec string_dec key (map fst kvs)) as [Hlater | Hnot].
  - apply IH. exact Hlater.
  - cbn in Hin. destruct Hin as [-> | Hin]; [|contradiction].
    fold (assignAll kvs (<[key := v]> o)).
    rewrite assignAll_lookup_other by exact Hnot.
    rewrite lookup_insert_eq. eauto.
Qed.

Lemma readAll_length {S A} (reads : list (M S A)) (w wk : World S) vals :
  readAll reads w = (Ok vals, wk) -> List.length vals = List.length reads.
Proof.
  revert w vals. induction reads as [|read reads IH]; intros w vals H.
  - injection H as <- _. reflexivity.
  - cbn [readAll] in H.
    apply bind_Ok_inv in H as (v & w1 & _ & H).
    apply bind_Ok_inv in H as (vs & w2 & Hvs & H).
    injection H as <- <-. cbn. f_equal. eapply IH. exact Hvs.
Qed.

Section NhsoPartial.

Context (E : Collaborators).

(** The assignments before the first read that throws are made, the rest
    is skipped. *)
Lemma assignUntilThrow_first_throw
    (done rest : list (string * M (CardSt E) jsstring)) key read
    (acc : NhsoData) (w wk wf : World (CardSt E)) vals e :
  readAll (map snd done) w = (Ok vals, wk) ->
  read wk = (Throw e, wf) ->
  assignUntilThrow E (done ++ (key, read) :: rest) acc w
  = (Ok (assignAll (combine (map fst done) vals) acc), warned wf).
Proof.
  revert acc w vals.
  induction done as [|[k r] done IH]; intros acc w vals Hall Hthrow.
  - injection Hall as <- <-. cbn. rewrite Hthrow. reflexivity.
  - cbn [map snd readAll] in Hall.
    apply bind_Ok_inv in Hall as (v & w1 & Hv & Hall).
    apply bind_Ok_inv in Hall as (vs & w2 & Hvs & Hall).
    injection Hall as <- <-.
    cbn [app assignUntilThrow]. rewrite Hv.
    rewrite (IH (<[k := v]> acc) w1 vs Hvs Hthrow). reflexivity.
Qed.

(** When every read returns, every assignment is made. *)
Lemma assignUntilThrow_all_return
    (todo : list (string * M (CardSt E) jsstring))
    (acc : NhsoData) (w wk : World (CardSt E)) vals :
  readAll (map snd todo) w = (Ok vals, wk) ->
  assignUntilThrow E todo acc w
  = (Ok (assignAll (combine (map fst todo) vals) acc), wk).
Proof.
  revert acc w vals.
  induction todo as [|[k r] todo IH]; intros acc w vals Hall.
  - injection Hall as <- <-. reflexivity.
  - cbn [map snd readAll] in Hall.
    apply bind_Ok_inv in Hall as (v & w1 & Hv & Hall).
    apply bind_Ok_inv in Hall as (vs & w2 & Hvs & Hall).
    injection Hall as <- <-.
    cbn [assignUntilThrow]. rewrite Hv.
    rewrite (IH (<[k := v]> acc) w1 vs Hvs). reflexivity.
Qed.

Lemma nhsoAssignments_keys req : map fst (nhsoAssignments E req) = nhsoKeys.
Proof. reflexivity. Qed.

(** C3 (as amended). When SELECT succeeds and the read of some field
    throws after the reads before it returned, [getInfo] returns without
    throwing; the record has the fields before the failed one, and neither
    the failed field nor any field after it; after the failed read the
    program only warns, it reads nothing more. *)
Theorem NhsoApplet_getInfo_stops_at_first_failure
    (req : list byte) (w w0 wk wf : World (CardSt E))
    (done rest : list (string * M (CardSt E) jsstring))
    (key : string) (read : M (CardSt E) jsstring)
    (vals : list jsstring) (e : Thrown) :
  initializeNhsoCard E w = (Ok tt, w0) ->
  nhsoAssignments E req = done ++ (key, read) :: rest ->
  readAll (map snd done) w0 = (Ok vals, wk) ->
  read wk = (Throw e, wf) ->
  exists record,
    NhsoApplet_getInfo E req w = (Ok record, warned wf)
    /\ record = assignAll (combine (map fst done) vals) ∅
    /\ (forall k, In k (map fst done) -> is_Some (record !! k))
    /\ record !! key = None
    /\ (forall k, In k (map fst rest) -> record !! k = None).
Proof.
  intros Hselect Hsplit Hdone Hthrow.
  exists (assignAll (combine (map fst done) vals) ∅).
  assert (Hlen := readAll_length _ _ _ _ Hdone).
  rewrite length_map in Hlen.
  assert (Hkeys : map fst (combine (map fst done) vals) = map fst done).
  { clear -Hlen. revert vals Hlen.
    induction done as [|[k r] done IH]; intros [|v vals] Hlen;
      try discriminate; [reflexivity|].
    cbn. f_equal. apply IH. cbn in Hlen. lia. }
  assert (Hnodup : NoDup (map fst done ++ key :: map fst rest)).
  { pose proof (nhsoAssignments_keys req) as Hk.
    rewrite Hsplit, map_app in Hk. cbn [map fst] in Hk. rewrite Hk.
    apply (bool_decide_unpack _). vm_compute. exact I. }
  assert (Hlater : forall k, In k (key :: map fst rest) ->
                   ~ In k (map fst done)).
  { intros k Hk Hd.
    apply NoDup_app in Hnodup as (_ & Hdisj & _).
    apply (Hdisj k); [apply list_elem_of_In, Hd | apply list_elem_of_In, Hk]. }
  split; [|split; [reflexivity|split; [|split]]].
  - unfold NhsoApplet_getInfo, tryCatch, bind. rewrite Hselect.
    unfold extractNhsoData. rewrite Hsplit.
    rewrite (assignUntilThrow_first_throw done rest key read ∅ w0 wk wf vals e
               Hdone Hthrow).
    reflexivity.
  - intros k Hk. apply assignAll_lookup_assigned. rewrite Hkeys. exact Hk.
  - rewrite assignAll_lookup_other; [apply lookup_empty|].
    rewrite Hkeys. apply Hlater. left. reflexivity.
  - intros k Hk. rewrite assignAll_lookup_other; [apply lookup_empty|].
    rewrite Hkeys. apply Hlater. right. exact Hk.
Qed.

End NhsoPartial.

Lemma NhsoApplet_getInfo_stops_at_first_failure_witness :
  let req := [x00; xc0; x00; x00] in
  let w := onCard (cardRefusing [apduNhso.CMD_PAID_TYPE]) in
  exists record,
    fst (NhsoApplet_getInfo scripted req w) = Ok record
    /\ (forall k,
          In k ["mainInscl"; "subInscl"; "mainHospitalName"; "subHospitalName"]%string ->
          is_Some (record !! k))
    /\ record !! "paidType"%string = None
    /\ (forall k,
          In k ["issueDate"; "expireDate"; "updateDate"; "changeHospitalAmount"]%string ->
          record !! k = None).
Proof.
  intros req w.
  set (w0 := snd (initializeNhsoCard scripted w)).
  set (done := firstn 4 (nhsoAssignments scripted req)).
  set (rest := skipn 5 (nhsoAssignments scripted req)).
  set (read := readHex scripted req apduNhso.CMD_PAID_TYPE).
  set (r := readAll (map snd done) w0).
  destruct (NhsoApplet_getInfo_stops_at_first_failure scripted req w w0
              (snd r) (snd (read (snd r))) done rest "paidType"%string read
              (returned r []) (thrownBy (read (snd r))))
    as (record & Hrun & _ & Hdone & Hkey & Hrest).
  - vm_compute. reflexivity.
  - reflexivity.
  - vm_compute. reflexivity.
  - vm_compute. reflexivity.
  - exists record. rewrite Hrun. auto.
Defined.

(** C3 (as stated, refuted). On a card that rejects the read of
    [mainInscl] and answers everything else, SELECT succeeds and [getInfo]
    returns, but with an empty record: [subInscl], which the card would
    answer, is omitted as well, and its command is never sent. *)
Lemma NhsoApplet_getInfo_omits_readable_fields :
  let req := [x00; xc0; x00; x00] in
  let w := onCard (cardRefusing [apduNhso.CMD_MAIN_INSCL]) in
  let r := NhsoApplet_getInfo scripted req w in
  fst (initializeNhsoCard scripted w) = Ok tt
  /\ fst r = Ok ∅
  /\ fst (readDecoded scripted req apduNhso.CMD_SUB_INSCL (snd r))
     = Ok (lit "25680315")
  /\ returned r ∅ !! "subInscl"%string = None
  /\ issued (trace (snd r)) = [apduNhso.SELECT; apduNhso.CMD_MAIN_INSCL].
Proof. vm_compute. repeat split. Qed.

(** ** Card removal *)

Section Removal.

Context (E : Collaborators) (options : RequiredOptions).

Lemma extractCardData_quiet : emits quiet (extractCardData E options).
Proof.
  unfold extractCardData.
  apply emits_bind; [apply emits_get | intros card].
  apply emits_bind; [apply extractPersonalData_quiet | intros d1].
  apply emits_bind; [apply extractHealthData_quiet | intros d2].
  apply emits_bind; [apply extractLaserData_quiet | intros d3].
  apply emits_ret.
Qed.

Lemma processCardData_notRemoved : emits notRemoved (processCardData E options).
Proof.
  unfold processCardData.
  apply emits_tryCatch.
  - apply emits_bind; [emits_steps ltac:(exact I) | intros _].
    apply emits_bind.
    + apply (emits_mono notRemoved quiet); [|apply extractCardData_quiet].
      intros [] H; solve [exact I | contradiction].
    + intros d. emits_steps ltac:(exact I).
  - intros e. emits_steps ltac:(exact I).
Qed.

Lemma handleCardInserted_effects (card : CardSt E) device (w : World Flags) :
  exists ev new,
    trace (snd (handleCardInserted E options card device w))
    = trace w ++ new
    /\ In (Emit card_inserted ev) new
    /\ Forall notRemoved new
    /\ cardInserted (state (snd (handleCardInserted E options card device w)))
       = true.
Proof.
  unfold handleCardInserted. cbv zeta.
  set (ev := {| status := STATUS.CARD_INSERTED; description := _; data := _ |}).
  set (message := lit "Thai National ID Card detected (ATR: " ++ _ ++ _).
  unfold setCardInserted. unfold bind, emit, effect, get, put, withCard.
  destruct (logDebug_run options message w) as (Hrun & Hst & _).
  rewrite Hrun. cbn -[processCardData logDebug lit].
  match goal with
  | |- context [processCardData E options ?x] =>
      destruct (processCardData_notRemoved x) as (n & En & Fn);
      destruct (processCardData E options x) as [r w']
  end.
  cbn [snd state trace] in *.
  assert (Hlog : exists pre, trace (snd (logDebug options message w))
                             = trace w ++ pre /\ Forall notRemoved pre).
  { unfold logDebug. destruct (debug options); cbn.
    - eexists. split; [reflexivity|]. repeat constructor.
    - exists []. rewrite app_nil_r. split; [reflexivity | constructor]. }
  destruct Hlog as (pre & Epre & Fpre).
  exists ev, (pre ++ [Emit card_inserted ev] ++ n).
  rewrite En, Epre, <- !app_assoc.
  repeat split.
  - apply in_or_app. right. left. reflexivity.
  - apply Forall_app. split; [exact Fpre|].
    apply Forall_app. split; [repeat constructor | exact Fn].
Qed.

End Removal.

Section RemovalRuns.

Context (E : Collaborators) (options : RequiredOptions).

Ltac no_removed :=
  let ev := fresh "ev" in
  let Hin := fresh "Hin" in
  intros (ev & Hin); cbn [In app] in Hin;
  repeat (destruct Hin as [Hin|Hin]; [discriminate Hin|]);
  contradiction.

Ltac simple_handler :=
  unfold init, destroy, resetState, handleDeviceConnected,
    handleDeviceDisconnected, handleDeviceError, handleCardError,
    handleCardRemoved, setCardInserted, setInitialized;
  unfold tryCatch, liftResult, bind, throw, ret, get, put, emit, logError,
    logDebug, effect.

(** One signal: what it appends to the trace and what it does to the flag. *)
Lemma step_effects (w : World Flags) (sig : Signal E) :
  exists new,
    trace (step options w sig) = trace w ++ new
    /\ (removedIn new ->
        (exists name, sig = CardRemoved E name)
        /\ cardInserted (state w) = true
        /\ cardInserted (state (step options w sig)) = false)
    /\ (cardInserted (state (step options w sig)) = true ->
        cardInserted (state w) = true \/ insertedIn new).
Proof.
  unfold step. destruct (exited w).
  { exists []. rewrite app_nil_r. split; [reflexivity|].
    split; [no_removed | auto]. }
  destruct sig as [start | | device devices | device devices | error
                  | card device | name | event]; cbn [handler].
  - simple_handler. destruct (isInitialized (state w)); cbn.
    + exists []. rewrite app_nil_r. split; [reflexivity|].
      split; [no_removed | auto].
    + destruct start as [[]|e]; cbn.
      * destruct (debug options); cbn.
        -- eexists. split; [reflexivity|]. split; [no_removed | auto].
        -- exists []. rewrite app_nil_r. split; [reflexivity|].
           split; [no_removed | auto].
      * exists []. rewrite app_nil_r. split; [reflexivity|].
        split; [no_removed | auto].
  - simple_handler. destruct (debug options); cbn.
    + eexists. split; [reflexivity|]. split; [no_removed | discriminate].
    + exists []. rewrite app_nil_r. split; [reflexivity|].
      split; [no_removed | discriminate].
  - simple_handler. destruct (debug options); cbn; rewrite <- ?app_assoc;
      (eexists; split; [reflexivity|]; split; [no_removed | auto]).
  - simple_handler. cbn. rewrite <- ?app_assoc.
    eexists. split; [reflexivity|]. split; [no_removed | discriminate].
  - simple_handler. cbn. rewrite <- ?app_assoc.
    eexists. split; [reflexivity|]. split; [no_removed | auto].
  - destruct (handleCardInserted_effects E options card device w)
      as (ev & new & Etr & Hin & Fnew & Hflag).
    exists new. split; [exact Etr|]. split.
    + intros (ev' & Hin'). rewrite List.Forall_forall in Fnew.
      destruct (Fnew _ Hin').
    + intros _. right. exists ev. exact Hin.
  - simple_handler. cbn. destruct (cardInserted (state w)) eqn:Hflag.
    + destruct (debug options); cbn; rewrite <- ?app_assoc;
        (eexists; split; [reflexivity|]; split; [|discriminate]);
        intros _; (split; [eauto | split; reflexivity]).
    + cbn. exists []. rewrite app_nil_r. split; [reflexivity|].
      split; [no_removed|]. rewrite Hflag. discriminate.
  - simple_handler. cbn. rewrite <- ?app_assoc.
    eexists. split; [reflexivity|]. split; [no_removed | auto].
Qed.

Lemma run_snoc (w : World Flags) (sigs : list (Signal E)) (sig : Signal E) :
  run options w (sigs ++ [sig]) = step options (run options w sigs) sig.
Proof. unfold run. rewrite fold_left_app. reflexivity. Qed.

(** In every run of a new reader: while the flag is set a [card-inserted]
    notification is in the trace, and every [card-removed] notification
    comes after a [card-inserted] one. *)
Lemma run_invariant (sigs : list (Signal E)) :
  let w := run options newReader sigs in
  (cardInserted (state w) = true -> insertedIn (trace w))
  /\ (forall before ev after,
        trace w = before ++ Emit card_removed ev :: after ->
        insertedIn before).
Proof.
  induction sigs as [|sig sigs IH] using rev_ind; cbv zeta.
  - split; [discriminate|].
    intros before ev after H. destruct before; discriminate H.
  - rewrite run_snoc. cbv zeta in IH. destruct IH as (IHflag & IHrem).
    set (w := run options newReader sigs) in *.
    destruct (step_effects w sig) as (new & Etr & Hrem & Hflag).
    split.
    + intros Hset. destruct (Hflag Hset) as [Hold | (ev & Hin)].
      * destruct (IHflag Hold) as (ev & Hin).
        exists ev. rewrite Etr. apply in_or_app. auto.
      * exists ev. rewrite Etr. apply in_or_app. auto.
    + intros before ev after Heq. rewrite Etr in Heq.
      apply app_eq_app in Heq as (mid & [[Hw Hnew] | [Hb Hnew]]).
      * destruct mid as [|x mid].
        -- (* the notification is the first new effect *)
           cbn in Hnew. rewrite app_nil_r in Hw.
           assert (Hin : removedIn new)
             by (exists ev; rewrite <- Hnew; left; reflexivity).
           destruct (Hrem Hin) as (_ & Hold & _).
           rewrite <- Hw. exact (IHflag Hold).
        -- (* the notification was in the trace before *)
           injection Hnew as <- Hnew.
           apply (IHrem before ev mid). exact Hw.
      * (* the notification is among the new effects *)
        assert (Hin : removedIn new)
          by (exists ev; rewrite Hnew; apply in_or_app; right; left;
              reflexivity).
        destruct (Hrem Hin) as (_ & Hold & _).
        destruct (IHflag Hold) as (ev' & Hin').
        exists ev'. rewrite Hb. apply in_or_app. auto.
Qed.

End RemovalRuns.

Section CardRemoved.

Context (E : Collaborators) (options : RequiredOptions).

(** C5. In every run of a new reader, at every signal: a [card-removed]
    notification is emitted only by a removal signal that finds the flag
    [cardInserted] set, and the flag is cleared after it; the flag is set
    only when a [card-inserted] notification went before; so every
    [card-removed] notification comes after a [card-inserted] one, and a
    removal signal before any insertion changes nothing and emits nothing. *)
Theorem card_removed_needs_card_inserted
    (sigs : list (Signal E)) (sig : Signal E) :
  let w := run options newReader sigs in
  let w' := step options w sig in
  (forall new,
     trace w' = trace w ++ new ->
     removedIn new ->
     (exists name, sig = CardRemoved E name)
     /\ cardInserted (state w) = true
     /\ cardInserted (state w') = false)
  /\ (cardInserted (state w) = true -> insertedIn (trace w))
  /\ (forall before ev after,
        trace w = before ++ Emit card_removed ev :: after ->
        insertedIn before)
  /\ (~ insertedIn (trace w) ->
      forall name,
        step options w (CardRemoved E name) = w /\ ~ removedIn (trace w)).
Proof.
  intros w w'.
  destruct (run_invariant E options sigs) as (Hflag & Hrem). fold w in Hflag, Hrem.
  split; [|split; [exact Hflag | split; [exact Hrem|]]].
  - intros new Etr Hin.
    destruct (step_effects E options w sig) as (new' & Etr' & Hrem' & _).
    fold w' in Etr', Hrem'. rewrite Etr in Etr'.
    apply app_inv_head in Etr'. subst new'. exact (Hrem' Hin).
  - intros Hnone name. split.
    + unfold step. destruct (exited w); [reflexivity|].
      cbn [handler]. unfold handleCardRemoved, bind, get.
      destruct (cardInserted (state w)) eqn:Hset.
      * destruct Hnone. exact (Hflag eq_refl).
      * reflexivity.
    + intros (ev & Hin). apply in_split in Hin as (before & after & Heq).
      destruct (Hrem before ev after Heq) as (ev' & Hin').
      apply Hnone. exists ev'. rewrite Heq. apply in_or_app. auto.
Qed.

End CardRemoved.

Lemma card_removed_needs_card_inserted_witness :
  let options := {| exitOnReadError := false; debug := false |} in
  let reader := Some (lit "Reader 0") in
  let early := run options newReader
                 [DeviceActivated scripted (lit "Reader 0") [lit "Reader 0"]] in
  let seated := run options newReader
                  [DeviceActivated scripted (lit "Reader 0") [lit "Reader 0"];
                   CardRemoved scripted reader;
                   CardInserted scripted (cardRefusing []) reader] in
  (step options early (CardRemoved scripted reader) = early
   /\ ~ removedIn (trace early))
  /\ (cardInserted (state seated) = true
      /\ cardInserted (state (step options seated (CardRemoved scripted reader)))
         = false
      /\ insertedIn (trace seated)).
Proof.
  intros options reader early seated. split.
  - apply (card_removed_needs_card_inserted scripted options
             [DeviceActivated scripted (lit "Reader 0") [lit "Reader 0"]]
             (CardRemoved scripted reader)).
    intros (ev & Hin). vm_compute in Hin.
    repeat (destruct Hin as [Hin|Hin]; [discriminate Hin|]). contradiction.
  - set (sigs := [DeviceActivated scripted (lit "Reader 0") [lit "Reader 0"];
                  CardRemoved scripted reader;
                  CardInserted scripted (cardRefusing []) reader]).
    set (ev := {| status := STATUS.CARD_REMOVED;
                  description := lit "Card Removed";
                  data := RemovedInfo (lit "Thai National ID Card removed") reader |}).
    destruct (card_removed_needs_card_inserted scripted options sigs
                (CardRemoved scripted reader))
      as (Hemit & Hflag & _ & _).
    destruct (Hemit [Emit card_removed ev]) as (_ & Hset & Hclear).
    + vm_compute. reflexivity.
    + exists ev. left. reflexivity.
    + split; [exact Hset|]. split; [exact Hclear|]. exact (Hflag Hset).
Defined.

(** ** Photo reassembly *)

Lemma join_empty_separator (parts : list jsstring) : join [] parts = concat parts.
Proof.
  induction parts as [|p [|q parts] IH]; cbn [join concat] in *.
  - reflexivity.
  - symmetry. apply app_nil_r.
  - rewrite IH. reflexivity.
Qed.

Lemma toStringHex_concat (segments : list Buffer) :
  concat (map toStringHex segments) = toStringHex (concat segments).
Proof.
  induction segments as [|s segments IH]; [reflexivity|].
  cbn [map concat]. rewrite toStringHex_app, IH. reflexivity.
Qed.

(** Dropping the last four digits of the hexadecimal text drops the two
    status bytes. *)
Lemma hex_without_footer (segment footer : Buffer) :
  List.length footer = 2%nat ->
  slice (toStringHex (segment ++ footer)) 0 (-4) = toStringHex segment.
Proof.
  intros Hlen. rewrite toStringHex_app.
  assert (H4 : len (toStringHex footer) = 4%Z).
  { unfold len. rewrite toStringHex_length, Hlen. reflexivity. }
  change (-4)%Z with (Z.opp 4%Z). rewrite <- H4.
  apply slice_0_drop_end. lia.
Qed.

Lemma issued_app (a b : list Effect) : issued (a ++ b) = issued a ++ issued b.
Proof. unfold issued. apply flat_map_app. Qed.

Lemma issued_Issue (commands : list (list byte)) :
  issued (map Issue commands) = commands.
Proof.
  induction commands as [|c commands IH]; [reflexivity|].
  cbn. f_equal. exact IH.
Qed.

Section Photo.

Context (E : Collaborators).

Lemma issueCommand_trace bytes (w w1 : World (CardSt E)) r :
  issueCommand E bytes w = (r, w1) -> trace w1 = trace w ++ [Issue bytes].
Proof.
  unfold issueCommand. destruct (issue E (state w) bytes).
  intros [= _ <-]. reflexivity.
Qed.

Lemma readAll_issue_trace commands (w w' : World (CardSt E)) responses :
  readAll (map (issueCommand E) commands) w = (Ok responses, w') ->
  trace w' = trace w ++ map Issue commands.
Proof.
  revert w responses.
  induction commands as [|c commands IH]; intros w responses H.
  - injection H as _ <-. symmetry. apply app_nil_r.
  - cbn [map readAll] in H.
    apply bind_Ok_inv in H as (r & w1 & Hr & H).
    apply bind_Ok_inv in H as (rs & w2 & Hrs & H).
    injection H as _ <-.
    rewrite (IH _ _ Hrs), (issueCommand_trace _ _ _ _ Hr), <- app_assoc.
    reflexivity.
Qed.

(** The loop of [extractPhoto] on a card that answers all its commands. *)
Lemma readPhotoParts_run req names acc (w w' : World (CardSt E)) responses :
  readAll (map (issueCommand E) (twoPhase req (map apduPerson.get names))) w
  = (Ok responses, w') ->
  readPhotoParts E req names acc w
  = (Ok (acc ++ map (fun r => slice (toStringHex r) 0 (-4))
                 (everySecond responses)), w').
Proof.
  revert acc w responses.
  induction names as [|name names IH]; intros acc w responses H.
  - injection H as <- <-. cbn. rewrite app_nil_r. reflexivity.
  - cbn [map twoPhase flat_map app readAll] in H.
    apply bind_Ok_inv in H as (r1 & w1 & H1 & H).
    apply bind_Ok_inv in H as (rs & w2 & H2 & H).
    injection H as <- <-.
    apply bind_Ok_inv in H2 as (r2 & w3 & H2 & H).
    apply bind_Ok_inv in H as (rs' & w4 & Hrest & H).
    injection H as <- <-.
    cbn [readPhotoParts]. unfold getData.
    rewrite (bind_Ok _ _ _ r2 w3).
    + rewrite (IH _ _ _ Hrest). cbn [everySecond map].
      rewrite <- app_assoc. reflexivity.
    + rewrite (bind_Ok _ _ _ r1 w1 H1). rewrite (bind_Ok _ _ _ r2 w3 H2).
      reflexivity.
Qed.

(** C8. When the card answers the forty commands of the photo read, and the
    second-phase responses are the segments [S1], ..., [S20] each followed
    by two status bytes: the commands sent are the two-phase reads of
    [CMD_PHOTO1], ..., [CMD_PHOTO20] in this order, and the photo is the
    image encoding of the hexadecimal text of [S1 ++ ... ++ S20], whatever
    the status bytes and the first-phase responses are. *)
Theorem extractPhoto_reassembles (req : list byte) (w w' : World (CardSt E))
    (responses : list Buffer) (segments : list (Buffer * Buffer)) :
  readAll (map (issueCommand E) (twoPhase req photoCommands)) w
  = (Ok responses, w') ->
  everySecond responses = map (fun sf => fst sf ++ snd sf) segments ->
  Forall (fun sf => List.length (snd sf) = 2%nat) segments ->
  extractPhoto E req w
  = (Ok (hex2imagebase64 E (toStringHex (concat (map fst segments)))), w')
  /\ issued (trace w') = issued (trace w) ++ twoPhase req photoCommands
  /\ twoPhase req photoCommands
     = flat_map (fun command => [command; req ++ [xff]]) photoCommands
  /\ map apduPerson.get PHOTO_COMMANDS = photoCommands
  /\ List.length segments = 20%nat.
Proof.
  intros Hall Hsecond Hfooter.
  assert (Hstrip : map (fun r => slice (toStringHex r) 0 (-4))
                     (everySecond responses)
                   = map toStringHex (map fst segments)).
  { rewrite Hsecond. clear -Hfooter.
    induction Hfooter as [|[s f] segments Hf _ IH]; [reflexivity|].
    cbn [map fst snd]. rewrite IH. f_equal.
    apply hex_without_footer. exact Hf. }
  split; [|split; [|split; [reflexivity | split; [reflexivity|]]]].
  - unfold extractPhoto.
    rewrite (bind_Ok _ _ _ _ _ (readPhotoParts_run req PHOTO_COMMANDS [] w w'
                                  responses Hall)).
    cbn [app ret]. rewrite Hstrip, join_empty_separator, toStringHex_concat.
    reflexivity.
  - rewrite (readAll_issue_trace _ _ _ _ Hall), issued_app, issued_Issue.
    reflexivity.
  - assert (Hlen := readAll_length _ _ _ _ Hall).
    rewrite length_map in Hlen.
    assert (Hs : List.length (everySecond responses) = List.length segments)
      by (rewrite Hsecond; apply length_map).
    rewrite <- Hs.
    change (List.length (twoPhase req photoCommands)) with 40%nat in Hlen.
    clear -Hlen.
    do 41 (destruct responses as [|? responses]; try discriminate Hlen).
    reflexivity.
Qed.

End Photo.

Lemma extractPhoto_reassembles_witness :
  let req := [x00; xc0; x00; x00] in
  let segment := list_byte_of_string "25680315" in
  fst (extractPhoto scripted req (onCard (cardRefusing [])))
  = Ok (toStringHex (concat (repeat segment 20)))
  /\ issued (trace (snd (extractPhoto scripted req (onCard (cardRefusing [])))))
     = twoPhase req photoCommands.
Proof.
  intros req segment.
  set (w := onCard (cardRefusing [])).
  set (r := readAll (map (issueCommand scripted) (twoPhase req photoCommands)) w).
  destruct (extractPhoto_reassembles scripted req w (snd r) (returned r [])
              (repeat (segment, [x90; x00]) 20))
    as (Hphoto & Hissued & _).
  - vm_compute. reflexivity.
  - vm_compute. reflexivity.
  - repeat constructor.
  - rewrite Hphoto. split; [reflexivity|]. exact Hissued.
Defined.

(** ** The request prefix in a read cycle *)

Section PrefixUse.

Context (E : Collaborators) (options : RequiredOptions).

Ltac prefix_leaf :=
  cbn [withPrefix];
  first [ exact I
        | right; eexists; reflexivity
        | left; unfold fixedCommands, photoCommands; cbn [app In];
          repeat (first [left; reflexivity | right]) ].

Lemma readPhotoParts_withPrefix req names acc :
  Forall (fun name => In (apduPerson.get name) photoCommands) names ->
  emits (withPrefix req) (readPhotoParts E req names acc).
Proof.
  intros Hnames. revert acc.
  induction Hnames as [|name names Hname _ IH]; intros acc;
    cbn [readPhotoParts].
  - apply emits_ret.
  - apply emits_bind; [|intros; apply IH].
    unfold getData.
    apply emits_bind; [apply emits_issueCommand | intros _].
    + left. unfold fixedCommands. apply in_or_app. right.
      apply in_or_app. left. exact Hname.
    + apply emits_bind; [apply emits_issueCommand | intros; apply emits_ret].
      right. unfold photoCommands in Hname. cbn [In] in Hname.
      repeat (destruct Hname as [<- | Hname]; [eexists; reflexivity|]).
      contradiction.
Qed.

Lemma extractPhoto_withPrefix req : emits (withPrefix req) (extractPhoto E req).
Proof.
  unfold extractPhoto.
  apply emits_bind; [|intros; apply emits_ret].
  apply readPhotoParts_withPrefix.
  unfold PHOTO_COMMANDS, photoCommands.
  repeat (constructor; [cbn [In]; repeat (first [left; reflexivity | right])|]).
  constructor.
Qed.

Lemma assignUntilThrow_withPrefix req
    (todo : list (string * M (CardSt E) jsstring)) acc :
  Forall (fun kr => emits (withPrefix req) (snd kr)) todo ->
  emits (withPrefix req) (assignUntilThrow E todo acc).
Proof.
  intros Hall. revert acc.
  induction Hall as [|[key read] todo Hread _ IH]; intros acc;
    cbn [assignUntilThrow].
  - apply emits_ret.
  - intros w. destruct (Hread w) as (n1 & E1 & F1). simpl in E1.
    destruct (read w) as [[v|e] w1]; simpl in E1.
    + destruct (IH (<[key := v]> acc) w1) as (n2 & E2 & F2).
      exists (n1 ++ n2). rewrite E2, E1, app_assoc.
      split; [reflexivity | apply Forall_app; auto].
    + exists (n1 ++ [ConsoleWarn (lit "Some NHSO fields could not be extracted:")]).
      simpl. rewrite E1, app_assoc.
      split; [reflexivity | apply Forall_app; split; [exact F1|]].
      constructor; [exact I | constructor].
Qed.

Lemma extractNhsoData_withPrefix req :
  emits (withPrefix req) (extractNhsoData E req).
Proof.
  unfold extractNhsoData. apply assignUntilThrow_withPrefix.
  unfold nhsoAssignments.
  repeat (constructor; [cbn [snd]; emits_steps prefix_leaf|]).
  constructor.
Qed.

#[local] Hint Resolve extractPhoto_withPrefix extractNhsoData_withPrefix
  : emits_db.

(** Every command of a read cycle that is not one of the fixed commands is
    the prefix chosen from the reset response, followed by one byte. *)
Lemma extractCardData_withPrefix (w : World (CardSt E)) :
  exists new,
    trace (snd (extractCardData E options w)) = trace w ++ new
    /\ Forall (withPrefix (determineRequestCommand E (state w))) new.
Proof.
  assert (H : forall req,
             emits (withPrefix req)
               (data <- extractPersonalData E req ∅;;
                data <- extractHealthData E options req data;;
                data <- extractLaserData E options req data;;
                ret data)).
  { intros req. emits_steps prefix_leaf. }
  unfold extractCardData, bind at 1, get.
  apply (H (determineRequestCommand E (state w)) w).
Qed.

End PrefixUse.

(** * Further properties of the decoders and readers *)

(** ** Trimming, splitting and joining *)

Lemma trimStart_startsClean (s : jsstring) : startsClean (trimStart s).
Proof.
  induction s as [|c s IH]; cbn [trimStart]; [exact I|].
  destruct (isWhiteSpace c) eqn:Hc; [exact IH | exact Hc].
Qed.

Lemma trimStart_clean (s : jsstring) : startsClean s -> trimStart s = s.
Proof. destruct s as [|c s]; cbn; [reflexivity | intros ->; reflexivity]. Qed.

Lemma trimStart_suffix (s : jsstring) : exists ws, s = ws ++ trimStart s.
Proof.
  induction s as [|c s (ws & IH)]; cbn [trimStart]; [exists []; reflexivity|].
  destruct (isWhiteSpace c).
  - exists (c :: ws). cbn. f_equal. exact IH.
  - exists []. reflexivity.
Qed.

Lemma trimEnd_prefix (s : jsstring) : exists ws, s = trimEnd s ++ ws.
Proof.
  unfold trimEnd. destruct (trimStart_suffix (rev s)) as (ws & H).
  exists (rev ws). apply (f_equal (@rev N)) in H.
  rewrite rev_involutive, rev_app_distr in H. exact H.
Qed.

Lemma trimEnd_clean (s : jsstring) : endsClean s -> trimEnd s = s.
Proof.
  unfold endsClean, trimEnd. intros H.
  rewrite trimStart_clean by exact H. apply rev_involutive.
Qed.

Lemma trim_clean (s : jsstring) : startsClean (trim s) /\ endsClean (trim s).
Proof.
  unfold trim. split.
  - pose proof (trimStart_startsClean s) as Hs.
    destruct (trimEnd_prefix (trimStart s)) as (ws & H).
    destruct (trimEnd (trimStart s)) as [|c t]; [exact I|].
    rewrite H in Hs. exact Hs.
  - unfold endsClean, trimEnd. rewrite rev_involutive.
    apply trimStart_startsClean.
Qed.

Lemma clean_trim (s : jsstring) : startsClean s -> endsClean s -> trim s = s.
Proof.
  intros Hs He. unfold trim. rewrite trimStart_clean by exact Hs.
  apply trimEnd_clean, He.
Qed.

Lemma trim_idempotent (s : jsstring) : trim (trim s) = trim s.
Proof. apply clean_trim; apply trim_clean. Qed.

Lemma In_trim (c : N) (s : jsstring) : In c (trim s) -> In c s.
Proof.
  unfold trim. intros H.
  destruct (trimEnd_prefix (trimStart s)) as (ws & He).
  destruct (trimStart_suffix s) as (ws' & Hs).
  rewrite Hs. apply in_or_app. right. rewrite He. apply in_or_app. auto.
Qed.

Lemma split_without_separator (sep : N) (s : jsstring) :
  Forall (fun token => ~ In sep token) (split sep s).
Proof.
  induction s as [|c s IH]; cbn [split].
  - constructor; [intros [] | constructor].
  - destruct (c =? sep)%N eqn:Hc.
    + constructor; [intros [] | exact IH].
    + apply N.eqb_neq in Hc. destruct (split sep s) as [|t ts].
      * constructor; [|constructor]. intros [H|[]]. congruence.
      * inversion IH as [|? ? Ht Hts]; subst.
        constructor; [|exact Hts]. intros [H|H]; [congruence | auto].
Qed.

Lemma split_single (sep : N) (s : jsstring) :
  ~ In sep s -> split sep s = [s].
Proof.
  induction s as [|c s IH]; intros Hnot; cbn [split]; [reflexivity|].
  destruct (c =? sep)%N eqn:Hc.
  - apply N.eqb_eq in Hc. destruct Hnot. left. exact Hc.
  - rewrite IH; [reflexivity|]. intros H. apply Hnot. right. exact H.
Qed.

Lemma In_join (c : N) (sep : jsstring) (parts : list jsstring) :
  In c (join sep parts) ->
  In c sep \/ exists part, In part parts /\ In c part.
Proof.
  induction parts as [|p [|q parts] IH]; cbn [join].
  - intros [].
  - intros H. right. exists p. split; [left; reflexivity | exact H].
  - intros H. apply in_app_or in H as [H|H].
    + right. exists p. split; [left; reflexivity | exact H].
    + apply in_app_or in H as [H|H]; [left; exact H|].
      destruct (IH H) as [Hs | (part & Hp & Hc)]; [left; exact Hs|].
      right. exists part. split; [right; exact Hp | exact Hc].
Qed.

Lemma startsClean_app (a b : jsstring) :
  a <> [] -> startsClean a -> startsClean (a ++ b).
Proof. destruct a as [|c a]; [contradiction | intros _ H; exact H]. Qed.

(** Joining non-empty parts that are clean at both ends gives such a
    string again, whatever the separator. *)
Lemma join_clean (sep : jsstring) (parts : list jsstring) :
  parts <> [] ->
  Forall (fun p => p <> [] /\ startsClean p /\ endsClean p) parts ->
  join sep parts <> [] /\ startsClean (join sep parts)
  /\ endsClean (join sep parts).
Proof.
  intros Hne Hall.
  induction Hall as [|p parts (Hp & Hs & He) Hrest IH]; [contradiction|].
  destruct parts as [|q parts]; cbn [join]; [auto|].
  destruct IH as (Jne & Js & Je); [discriminate|].
  set (J := join sep (q :: parts)) in *.
  split; [|split].
  - destruct p; [contradiction | discriminate].
  - apply startsClean_app; assumption.
  - unfold endsClean in *. rewrite !rev_app_distr, <- app_assoc.
    apply startsClean_app; [|exact Je].
    intros Hnil. apply Jne.
    apply (f_equal (@rev N)) in Hnil. rewrite rev_involutive in Hnil.
    exact Hnil.
Qed.

Lemma nonEmpty_not_nil (part : jsstring) : nonEmpty part = true -> part <> [].
Proof. intros H ->. discriminate H. Qed.

Lemma partAt_clean (parts : list jsstring) (i : nat) :
  startsClean (partAt parts i) /\ endsClean (partAt parts i).
Proof.
  unfold partAt. destruct (nth_error parts i) as [t|]; cbn.
  - apply trim_clean.
  - split; exact I.
Qed.

Lemma partAt_characters (parts : list jsstring) (i : nat) (c : N) :
  In c (partAt parts i) -> exists token, In token parts /\ In c token.
Proof.
  unfold partAt. destruct (nth_error parts i) as [t|] eqn:Ht; cbn; [|intros []].
  intros H. exists t. split; [eapply nth_error_In; eauto | apply In_trim, H].
Qed.

(** ** Names *)

Section Names.

Context (E : Collaborators).

(** X1. The full name is the non-empty components joined by single spaces
    as it stands: the last [trim] of [parseNameComponents] removes nothing,
    the full name has no white space at either end, and it never contains
    the delimiter [#]. *)
Theorem parseNameComponents_fullname_is_clean (decodedData : Buffer) :
  let c := parseNameComponents E decodedData in
  fullname c
  = join (lit " ")
      (List.filter nonEmpty [prefix c; firstname c; middlename c; lastname c])
  /\ trim (fullname c) = fullname c
  /\ ~ In 35%N (fullname c).
Proof.
  intros c. subst c. unfold parseNameComponents.
  cbn [prefix firstname middlename lastname fullname].
  set (tokens := split 35 _).
  set (parts := List.filter nonEmpty _).
  assert (Hparts : Forall (fun p => p <> [] /\ startsClean p /\ endsClean p) parts).
  { apply List.Forall_forall. intros p Hp. subst parts.
    apply filter_In in Hp as (Hin & Hne).
    split; [apply nonEmpty_not_nil, Hne|].
    cbn [In] in Hin.
    destruct Hin as [<-|[<-|[<-|[<-|[]]]]]; apply partAt_clean. }
  assert (Hjoin : trim (join (lit " ") parts) = join (lit " ") parts).
  { destruct parts as [|p parts'] eqn:Hp; [reflexivity|].
    destruct (join_clean (lit " ") (p :: parts') ltac:(discriminate) Hparts)
      as (_ & Hs & He).
    apply clean_trim; assumption. }
  rewrite Hjoin. split; [reflexivity|]. split; [exact Hjoin|].
  intros Hin. apply In_join in Hin as [Hsp | (part & Hp & Hc)].
  - vm_compute in Hsp. destruct Hsp as [Hsp|[]]. discriminate Hsp.
  - subst parts. apply filter_In in Hp as (Hp & _). cbn [In] in Hp.
    assert (Htok : exists token, In token tokens /\ In 35%N token).
    { destruct Hp as [<-|[<-|[<-|[<-|[]]]]];
        exact (partAt_characters _ _ _ Hc). }
    destruct Htok as (token & Htok & H35).
    pose proof (split_without_separator 35 (trim (utf8 E (slice decodedData 0 (-2)))))
      as Hall.
    rewrite List.Forall_forall in Hall. exact (Hall token Htok H35).
Qed.

End Names.

(** ** Addresses *)

Lemma moo_and_soi_markers_exclude (p : jsstring) :
  startsWith p (lit "หมู่ที่") = true -> startsWith p (lit "ซอย") = false.
Proof.
  change (lit "หมู่ที่") with [3627; 3617; 3641; 3656; 3607; 3637; 3656]%N.
  change (lit "ซอย") with [3595; 3629; 3618]%N.
  unfold startsWith. destruct p as [|c p]; [discriminate|].
  cbn [List.length firstn strEq].
  destruct (c =? 3627)%N eqn:Hc; [|discriminate].
  apply N.eqb_eq in Hc. subst c. intros _. reflexivity.
Qed.

(** X2. The structured address fields at their edges: the village group and
    the lane are never both filled; an address of at most five tokens has
    an empty street; an address without [#] is one token, read both as the
    house number and, from its eighth character on, as the province, with
    subdistrict and district empty. *)
Theorem parseAddressComponents_edges (addressStr : jsstring) :
  let a := parseAddressComponents addressStr in
  (moo a = [] \/ soi a = [])
  /\ ((List.length (split 35 addressStr) <= 5)%nat -> street a = [])
  /\ (~ In 35%N addressStr ->
      houseNo a = trim addressStr
      /\ province a = extractProvince (Some addressStr)
      /\ subdistrict a = [] /\ district a = [] /\ street a = []).
Proof.
  intros a. subst a. unfold parseAddressComponents.
  cbn [moo soi street houseNo province subdistrict district].
  split; [|split].
  - unfold extractMooNumber, extractSoiName.
    destruct (startsWith _ (lit "หมู่ที่")) eqn:Hm; [|left; reflexivity].
    rewrite (moo_and_soi_markers_exclude _ Hm). right. reflexivity.
  - intros Hlen.
    destruct (split 35 addressStr) as [|t1 [|t2 [|t3 [|t4 [|t5 [|t6 r]]]]]];
      try reflexivity.
    cbn in Hlen. lia.
  - intros Hnot. rewrite (split_single 35 addressStr Hnot).
    repeat split; reflexivity.
Qed.

Lemma parseAddressComponents_edges_witness :
  let a := parseAddressComponents (lit "99#หมู่ที่ 4#ตำบลบางรัก#อำเภอเมือง#จังหวัดตรัง") in
  street a = [] /\ soi a = [] /\ moo a = lit "4".
Proof.
  pose proof (parseAddressComponents_edges
                (lit "99#หมู่ที่ 4#ตำบลบางรัก#อำเภอเมือง#จังหวัดตรัง"))
    as (_ & Hstreet & _).
  intros a. split; [|split].
  - apply Hstreet. vm_compute. lia.
  - vm_compute. reflexivity.
  - vm_compute. reflexivity.
Defined.

(** X3. The full address string never contains the delimiter [#] and has
    no white space at either end. *)
Theorem parseAddressComponents_fullAddress_is_clean (addressStr : jsstring) :
  let a := parseAddressComponents addressStr in
  ~ In 35%N (fullAddress a) /\ trim (fullAddress a) = fullAddress a.
Proof.
  intros a. subst a. unfold parseAddressComponents. cbn [fullAddress].
  split; [|apply trim_idempotent].
  intros Hin. apply In_trim, In_join in Hin as [Hsp | (part & Hp & Hc)].
  - vm_compute in Hsp. destruct Hsp as [Hsp|[]]. discriminate Hsp.
  - apply filter_In in Hp as (Hp & _).
    pose proof (split_without_separator 35 addressStr) as Hall.
    rewrite List.Forall_forall in Hall. exact (Hall part Hp Hc).
Qed.

(** ** The two-phase read and the laser identifier *)

Section Reads.

Context (E : Collaborators).

Lemma issueCommand_issued bytes (w w1 : World (CardSt E)) r :
  issueCommand E bytes w = (r, w1) ->
  issued (trace w1) = issued (trace w) ++ [bytes].
Proof.
  intros H. rewrite (issueCommand_trace E _ _ _ _ H), issued_app. reflexivity.
Qed.

(** X4. A two-phase read sends the command and then, only if the card
    accepted it, the request prefix followed by the last byte of the command
    (by nothing when the command is empty); it returns what the second
    exchange gives and drops the first response; a rejection in either
    phase is thrown on unchanged. *)
Theorem getData_two_phases (command req : list byte) (w : World (CardSt E)) :
  let second := req ++ match rev command with
                       | le :: _ => [le]
                       | [] => []
                       end in
  (forall e w1,
     issueCommand E command w = (Throw e, w1) ->
     getData E command req w = (Throw e, w1)
     /\ issued (trace w1) = issued (trace w) ++ [command])
  /\ (forall first w1,
        issueCommand E command w = (Ok first, w1) ->
        fst (getData E command req w) = fst (issueCommand E second w1)
        /\ issued (trace (snd (getData E command req w)))
           = issued (trace w) ++ [command; second]).
Proof.
  intros second.
  assert (Hlast : sliceFrom command (-1)
                  = match rev command with le :: _ => [le] | [] => [] end).
  { destruct command as [|b command] using rev_ind; [reflexivity|].
    rewrite rev_app_distr. cbn [rev app].
    unfold sliceFrom, slice, relIndex. rewrite len_app.
    pose proof (len_nonneg command) as Hl.
    change (len [b]) with 1%Z. change (-1 <? 0)%Z with true. cbv iota.
    destruct (len command + 1 <? 0)%Z eqn:Hneg;
      [apply Z.ltb_lt in Hneg; lia|].
    rewrite Z.max_l, Z.min_l by lia.
    replace (len command + 1 + -1)%Z with (len command) by lia.
    replace (len command + 1 - len command)%Z with 1%Z by lia.
    unfold len. rewrite Nat2Z.id, skipn_app, skipn_all, Nat.sub_diag.
    reflexivity. }
  unfold getData. rewrite Hlast. fold second. split.
  - intros e w1 H. unfold bind at 1. rewrite H.
    split; [reflexivity | exact (issueCommand_issued _ _ _ _ H)].
  - intros first w1 H.
    destruct (issueCommand E second w1) as [[data|e] w2] eqn:H2;
      unfold bind, ret; rewrite H, H2; cbn [fst snd];
      (split; [reflexivity|]);
      rewrite (issueCommand_issued _ _ _ _ H2), (issueCommand_issued _ _ _ _ H),
        <- app_assoc; reflexivity.
Qed.

(** X5. The laser identifier [getLaser] returns has no NUL character and no
    white space at either end, and it is read with exactly three commands:
    the selection of the laser applet, the read, and the request prefix
    followed by [0x10]. *)
Theorem getLaser_result (req : list byte) (w w' : World (CardSt E))
    (laserId : jsstring) :
  getLaser E req w = (Ok laserId, w') ->
  ~ In 0%N laserId
  /\ trim laserId = laserId
  /\ issued (trace w')
     = issued (trace w) ++ [laserSelect; [x80; x00; x00; x00; x07]; req ++ [x10]].
Proof.
  unfold getLaser. intros H.
  apply bind_Ok_inv in H as (r1 & w1 & H1 & H).
  apply bind_Ok_inv in H as (r2 & w2 & H2 & H).
  apply bind_Ok_inv in H as (r3 & w3 & H3 & H).
  injection H as <- <-.
  split; [|split].
  - intros Hin. apply In_trim, filter_In in Hin as (_ & Hnz).
    discriminate Hnz.
  - apply trim_idempotent.
  - rewrite (issueCommand_issued _ _ _ _ H3), (issueCommand_issued _ _ _ _ H2),
      (issueCommand_issued _ _ _ _ H1), <- !app_assoc.
    reflexivity.
Qed.

End Reads.

Lemma getData_two_phases_witness :
  let w := onCard (cardRefusing [apduPerson.CMD_CID]) in
  let req := [x00; xc0; x00; x01] in
  issued (trace (snd (getData scripted apduPerson.CMD_CID req w)))
  = [apduPerson.CMD_CID]
  /\ issued (trace (snd (getData scripted apduPerson.CMD_BIRTH req w)))
     = [apduPerson.CMD_BIRTH; [x00; xc0; x00; x01; x08]].
Proof.
  intros w req. split.
  - set (r := issueCommand scripted apduPerson.CMD_CID w).
    destruct (getData_two_phases scripted apduPerson.CMD_CID req w) as (Hthrow & _).
    destruct (Hthrow (thrownBy r) (snd r)) as (Hrun & Hissued).
    + vm_compute. reflexivity.
    + rewrite Hrun. exact Hissued.
  - set (r := issueCommand scripted apduPerson.CMD_BIRTH w).
    destruct (getData_two_phases scripted apduPerson.CMD_BIRTH req w) as (_ & Hok).
    destruct (Hok (returned r []) (snd r)) as (_ & Hissued).
    + vm_compute. reflexivity.
    + exact Hissued.
Defined.

Lemma getLaser_result_witness :
  let r := getLaser scripted [x00; xc0; x00; x00]
             (onCard (cardAnswering [x31; x00; x32; x20; x90; x00])) in
  fst r = Ok (lit "12") /\ ~ In 0%N (returned r []).
Proof.
  intros r. split; [vm_compute; reflexivity|].
  apply (getLaser_result scripted [x00; xc0; x00; x00]
           (onCard (cardAnswering [x31; x00; x32; x20; x90; x00])) (snd r)
           (returned r [])).
  vm_compute. reflexivity.
Defined.

(** ** Requested fields *)

Lemma createFieldLookup_initial (key : string) :
  default false
    ((list_to_map
        [("cid", false); ("name", false); ("nameEn", false); ("dob", false);
         ("gender", false); ("issuer", false); ("issueDate", false);
         ("expireDate", false); ("address", false); ("photo", false)]%string
      : gmap string bool) !! key) = false.
Proof.
  destruct (_ !! key) as [[|]|] eqn:H; try reflexivity.
  apply elem_of_list_to_map_2 in H.
  repeat (apply elem_of_cons in H as [H|H]; [discriminate H|]).
  apply elem_of_nil in H. contradiction.
Qed.

Lemma fold_insert_true (queryFields : list string) (m : gmap string bool)
    (key : string) :
  default false
    (fold_left (fun lookup field => <[field := true]> lookup) queryFields m !! key)
  = true
  <-> In key queryFields \/ default false (m !! key) = true.
Proof.
  revert m. induction queryFields as [|f fs IH]; intros m; cbn [fold_left In].
  - tauto.
  - rewrite IH. destruct (decide (f = key)) as [->|Hne].
    + rewrite lookup_insert_eq. cbn. tauto.
    + rewrite lookup_insert_ne by exact Hne. tauto.
Qed.

(** A field is marked as requested exactly when it occurs in the query. *)
Lemma createFieldLookup_requested (queryFields : list string) (key : string) :
  default false (createFieldLookup queryFields !! key) = true
  <-> In key queryFields.
Proof.
  unfold createFieldLookup. rewrite fold_insert_true, createFieldLookup_initial.
  split; [intros [H|H]; [exact H | discriminate H] | auto].
Qed.

Section Requested.

Context (E : Collaborators).

(** X6. The record [PersonalApplet.getInfo] returns has an entry exactly for
    the personal fields that occur in the query ([cid] alone when no query
    is given): order and repetition in the query make no difference to the
    entries, and the fields [nhso] and [laserId], or any other name, are
    ignored. *)
Theorem PersonalApplet_getInfo_entries
    (req : list byte) (queryFields : option (list string))
    (record : ThaiIdCardData) (w w' : World (CardSt E)) :
  PersonalApplet_getInfo E req queryFields w = (Ok record, w') ->
  forall key : string,
    is_Some (record !! key)
    <-> In key personalKeys /\ In key (default ["cid"%string] queryFields).
Proof.
  intros H key.
  rewrite (PersonalApplet_getInfo_keys E req queryFields record w w' H key).
  rewrite createFieldLookup_requested. reflexivity.
Qed.

End Requested.

Lemma PersonalApplet_getInfo_entries_witness :
  let r := PersonalApplet_getInfo scripted [x00; xc0; x00; x00]
             (Some ["nhso"; "dob"; "cid"; "dob"]%string)
             (onCard (cardRefusing [])) in
  is_Some (returned r ∅ !! "dob"%string)
  /\ ~ is_Some (returned r ∅ !! "nhso"%string)
  /\ ~ is_Some (returned r ∅ !! "name"%string).
Proof.
  intros r.
  pose proof (PersonalApplet_getInfo_entries scripted [x00; xc0; x00; x00]
                (Some ["nhso"; "dob"; "cid"; "dob"]%string) (returned r ∅)
                (onCard (cardRefusing [])) (snd r)
                ltac:(vm_compute; reflexivity)) as Hkeys.
  split; [|split]; rewrite Hkeys; cbn.
  - intuition.
  - intros (Hin & _).
    repeat (destruct Hin as [Hin|Hin]; [discriminate Hin|]). exact Hin.
  - intros (_ & Hin).
    repeat (destruct Hin as [Hin|Hin]; [discriminate Hin|]). exact Hin.
Defined.

(** ** Insurance data: what [getInfo] can return *)

Lemma assignAll_keys (kvs : list (string * jsstring)) (key : string) :
  is_Some (assignAll kvs ∅ !! key) <-> In key (map fst kvs).
Proof.
  split; [|apply assignAll_lookup_assigned].
  intros Hsome. destruct (in_dec string_dec key (map fst kvs)) as [Hin|Hnot];
    [exact Hin|].
  rewrite (assignAll_lookup_other kvs ∅ key Hnot), lookup_empty in Hsome.
  destruct Hsome as (v & Hv). discriminate Hv.
Qed.

Lemma map_fst_combine {A B} (keys : list A) (vals : list B) :
  List.length vals = List.length keys -> map fst (combine keys vals) = keys.
Proof.
  revert vals. induction keys as [|k keys IH]; intros [|v vals] Hlen;
    try discriminate; [reflexivity|].
  cbn. f_equal. apply IH. cbn in Hlen. lia.
Qed.

Section NhsoOutcome.

Context (E : Collaborators).

(** The assignments never throw, and what they return is the assignments
    of an initial part of the list. *)
Lemma assignUntilThrow_returns
    (todo : list (string * M (CardSt E) jsstring)) (acc : NhsoData)
    (w : World (CardSt E)) :
  exists n vals w',
    assignUntilThrow E todo acc w
    = (Ok (assignAll (combine (map fst (firstn n todo)) vals) acc), w')
    /\ List.length vals = List.length (firstn n todo).
Proof.
  revert acc w. induction todo as [|[key read] todo IH]; intros acc w.
  - exists 0%nat, [], w. split; reflexivity.
  - cbn [assignUntilThrow]. destruct (read w) as [[v|e] w1].
    + destruct (IH (<[key := v]> acc) w1) as (n & vals & w' & Hrun & Hlen).
      exists (S n), (v :: vals), w'. rewrite Hrun.
      split; [reflexivity | cbn; f_equal; exact Hlen].
    + exists 0%nat, [], (warned w1). split; reflexivity.
Qed.

(** X7. [NhsoApplet.getInfo] throws exactly when the selection of the
    insurance applet is rejected, and then it throws an [Error] whose
    message is [Failed to read NHSO data: ] followed by the message of the
    rejection; otherwise it returns a record whose entries are an initial
    part of the nine fields in program order. *)
Theorem NhsoApplet_getInfo_outcome (req : list byte) (w : World (CardSt E)) :
  (forall e w0,
     initializeNhsoCard E w = (Throw e, w0) ->
     NhsoApplet_getInfo E req w
     = (Throw (Error (lit "Failed to read NHSO data: " ++ messageOf e)), w0))
  /\ (forall w0,
        initializeNhsoCard E w = (Ok tt, w0) ->
        exists record w1 n,
          NhsoApplet_getInfo E req w = (Ok record, w1)
          /\ forall key : string,
               is_Some (record !! key) <-> In key (firstn n nhsoKeys)).
Proof.
  unfold NhsoApplet_getInfo, tryCatch, bind. split.
  - intros e w0 H. rewrite H. reflexivity.
  - intros w0 H. rewrite H. unfold extractNhsoData.
    destruct (assignUntilThrow_returns (nhsoAssignments E req) ∅ w0)
      as (n & vals & w1 & Hrun & Hlen).
    rewrite Hrun. cbn [ret]. eexists _, w1, n. split; [reflexivity|].
    intros key. rewrite assignAll_keys, map_fst_combine.
    + rewrite <- firstn_map, nhsoAssignments_keys. reflexivity.
    + rewrite length_map. exact Hlen.
Qed.

Lemma initializeNhsoCard_issued (w w0 : World (CardSt E)) r :
  initializeNhsoCard E w = (r, w0) ->
  issued (trace w0) = issued (trace w) ++ [apduNhso.SELECT].
Proof.
  unfold initializeNhsoCard, bind, ret.
  destruct (issueCommand E apduNhso.SELECT w) as [[data|e] w1] eqn:Hi;
    intros [= _ <-]; exact (issueCommand_issued E _ _ _ _ Hi).
Qed.

Lemma NhsoApplet_getInfo_selection_rejected
    (req : list byte) (w w0 : World (CardSt E)) e :
  initializeNhsoCard E w = (Throw e, w0) ->
  NhsoApplet_getInfo E req w
  = (Throw (Error (lit "Failed to read NHSO data: " ++ messageOf e)), w0).
Proof.
  intros H. unfold NhsoApplet_getInfo, tryCatch, bind. rewrite H. reflexivity.
Qed.

Lemma NhsoApplet_getInfo_selection_accepted
    (req : list byte) (w w0 : World (CardSt E)) :
  initializeNhsoCard E w = (Ok tt, w0) ->
  exists record w1, NhsoApplet_getInfo E req w = (Ok record, w1).
Proof.
  intros H. unfold NhsoApplet_getInfo, tryCatch, bind. rewrite H.
  unfold extractNhsoData.
  destruct (assignUntilThrow_returns (nhsoAssignments E req) ∅ w0)
    as (n & vals & w1 & Hrun & _).
  rewrite Hrun. cbn [ret]. eauto.
Qed.

(** X8. [hasNhsoData] never throws and sends the selection of the insurance
    applet and nothing else; it answers [true] exactly when [getInfo], called
    in its place, would return a record. *)
Theorem hasNhsoData_predicts_getInfo (req : list byte) (w : World (CardSt E)) :
  exists available w',
    hasNhsoData E w = (Ok available, w')
    /\ issued (trace w') = issued (trace w) ++ [apduNhso.SELECT]
    /\ (available = true
        <-> exists record w1, NhsoApplet_getInfo E req w = (Ok record, w1)).
Proof.
  unfold hasNhsoData, tryCatch, bind at 1.
  destruct (initializeNhsoCard E w) as [[[]|e] w0] eqn:Hsel.
  - exists true, w0. split; [reflexivity|]. split.
    + exact (initializeNhsoCard_issued _ _ _ Hsel).
    + destruct (NhsoApplet_getInfo_selection_accepted req w w0 Hsel)
        as (record & w1 & Hrun).
      split; [eauto | reflexivity].
  - exists false, w0. split; [reflexivity|]. split.
    + exact (initializeNhsoCard_issued _ _ _ Hsel).
    + rewrite (NhsoApplet_getInfo_selection_rejected req w w0 e Hsel).
      split; [discriminate | intros (record & w1 & H); discriminate H].
Qed.

End NhsoOutcome.

Lemma NhsoApplet_getInfo_outcome_witness :
  let req := [x00; xc0; x00; x00] in
  fst (NhsoApplet_getInfo scripted req (onCard (cardRefusing [apduNhso.SELECT])))
  = Throw (Error (lit "Failed to read NHSO data: Card rejected the command"))
  /\ exists record n,
       fst (NhsoApplet_getInfo scripted req
              (onCard (cardRefusing [apduNhso.CMD_SUB_HOSPITAL_NAME])))
       = Ok record
       /\ forall key : string,
            is_Some (record !! key) <-> In key (firstn n nhsoKeys).
Proof.
  intros req. split.
  - set (w := onCard (cardRefusing [apduNhso.SELECT])).
    set (r := initializeNhsoCard scripted w).
    destruct (NhsoApplet_getInfo_outcome scripted req w) as (Hthrow & _).
    rewrite (Hthrow (thrownBy r) (snd r) ltac:(vm_compute; reflexivity)).
    vm_compute. reflexivity.
  - set (w := onCard (cardRefusing [apduNhso.CMD_SUB_HOSPITAL_NAME])).
    set (r := initializeNhsoCard scripted w).
    destruct (NhsoApplet_getInfo_outcome scripted req w) as (_ & Hok).
    destruct (Hok (snd r) ltac:(vm_compute; reflexivity))
      as (record & w1 & n & Hrun & Hkeys).
    exists record, n. rewrite Hrun. split; [reflexivity | exact Hkeys].
Defined.

(** ** Photo: responses of any length *)

Lemma hex_slice (response : Buffer) :
  slice (toStringHex response) 0 (-4) = toStringHex (slice response 0 (-2)).
Proof.
  destruct (le_lt_dec 2 (List.length response)) as [Hlong | Hshort].
  - set (body := firstn (List.length response - 2) response).
    set (footer := skipn (List.length response - 2) response).
    assert (Hsplit : response = body ++ footer)
      by (symmetry; apply firstn_skipn).
    assert (Hfooter : List.length footer = 2%nat)
      by (subst footer; rewrite length_skipn; lia).
    rewrite Hsplit, hex_without_footer by exact Hfooter.
    f_equal. symmetry.
    assert (H2 : len footer = 2%Z) by (unfold len; rewrite Hfooter; reflexivity).
    change (-2)%Z with (Z.opp 2%Z). rewrite <- H2.
    apply slice_0_drop_end. lia.
  - destruct response as [|a [|b response]]; [reflexivity | reflexivity|].
    cbn in Hshort. lia.
Qed.

Section PhotoAnyLength.

Context (E : Collaborators).

(** X9. Whatever the card answers to the forty commands of the photo read,
    the text handed to the image encoder is the hexadecimal text of the
    second-phase responses, each without its last two bytes, in order: a
    response of fewer than two bytes contributes nothing, and dropping four
    hexadecimal digits is the same as dropping two bytes. *)
Theorem extractPhoto_any_responses (req : list byte) (w w' : World (CardSt E))
    (responses : list Buffer) :
  readAll (map (issueCommand E) (twoPhase req photoCommands)) w
  = (Ok responses, w') ->
  extractPhoto E req w
  = (Ok (hex2imagebase64 E
           (toStringHex
              (concat (map (fun r => slice r 0 (-2)) (everySecond responses))))),
     w').
Proof.
  intros Hall. unfold extractPhoto.
  rewrite (bind_Ok _ _ _ _ _ (readPhotoParts_run E req PHOTO_COMMANDS [] w w'
                                responses Hall)).
  cbn [app ret]. rewrite join_empty_separator.
  rewrite <- toStringHex_concat, map_map.
  rewrite (map_ext _ _ hex_slice). reflexivity.
Qed.

End PhotoAnyLength.

Lemma extractPhoto_any_responses_witness :
  fst (extractPhoto scripted [x00; xc0; x00; x00] (onCard (cardAnswering [x90])))
  = Ok [].
Proof.
  set (w := onCard (cardAnswering [x90])).
  set (r := readAll (map (issueCommand scripted)
                       (twoPhase [x00; xc0; x00; x00] photoCommands)) w).
  rewrite (extractPhoto_any_responses scripted [x00; xc0; x00; x00] w (snd r)
             (returned r []) ltac:(vm_compute; reflexivity)).
  vm_compute. reflexivity.
Defined.

(** ** Request prefix *)

Section PrefixChoice.

Context (E : Collaborators) (options : RequiredOptions).

(** X10. The request prefix is one of two values, and it is the alternate
    one, [00 c0 00 01], exactly when the reset response is the two bytes
    [3B 67] and nothing else. *)
Theorem determineRequestCommand_choice (card : CardSt E) :
  (determineRequestCommand E card = [x00; xc0; x00; x01]
   <-> getAtr E card = [x3b; x67])
  /\ (determineRequestCommand E card = [x00; xc0; x00; x00]
      <-> getAtr E card <> [x3b; x67]).
Proof.
  pose proof (determineRequestCommand_alternate_iff E card) as Halt.
  split; [exact Halt|]. split.
  - intros Hdef Hatr. apply Halt in Hatr. rewrite Hatr in Hdef.
    discriminate Hdef.
  - apply determineRequestCommand_default.
Qed.

Lemma issued_Forall (P : list byte -> Prop) (l : list Effect) :
  Forall (fun e => match e with Issue bytes => P bytes | _ => True end) l ->
  Forall P (issued l).
Proof.
  induction 1 as [|e l He _ IH]; [constructor|].
  destruct e; cbn; try exact IH. constructor; assumption.
Qed.

(** X11. In one read cycle every command sent to the card is one of the
    fixed commands of the catalogue, or the request prefix chosen from the
    reset response at the start of the cycle followed by one byte: the
    personal, the insurance and the laser reads all use the same prefix. *)
Theorem read_cycle_uses_one_prefix (w : World (CardSt E)) :
  exists sent,
    issued (trace (snd (extractCardData E options w)))
    = issued (trace w) ++ sent
    /\ Forall (fun bytes =>
                 In bytes fixedCommands
                 \/ exists le, bytes = determineRequestCommand E (state w) ++ [le])
         sent.
Proof.
  destruct (extractCardData_withPrefix E options w) as (new & Etr & Hall).
  exists (issued new). rewrite Etr, issued_app. split; [reflexivity|].
  apply issued_Forall. exact Hall.
Qed.

End PrefixChoice.

(** ** What a reader may do *)

Section Allowed.

Context (E : Collaborators) (options : RequiredOptions).

Lemma readPhotoParts_emits (P : Effect -> Prop) req names acc :
  (forall bytes, P (Issue bytes)) ->
  emits P (readPhotoParts E req names acc).
Proof.
  intros HP. revert acc.
  induction names as [|name names IH]; intros acc; cbn [readPhotoParts].
  - apply emits_ret.
  - apply emits_bind; [emits_steps ltac:(apply HP) | intros; apply IH].
Qed.

Lemma assignUntilThrow_emits (P : Effect -> Prop)
    (todo : list (string * M (CardSt E) jsstring)) acc :
  (forall text, P (ConsoleWarn text)) ->
  Forall (fun kr => emits P (snd kr)) todo ->
  emits P (assignUntilThrow E todo acc).
Proof.
  intros HP Hall. revert acc.
  induction Hall as [|[key read] todo Hread _ IH]; intros acc;
    cbn [assignUntilThrow].
  - apply emits_ret.
  - intros w. destruct (Hread w) as (n1 & E1 & F1). cbn [snd] in E1.
    destruct (read w) as [[v|e] w1]; cbn [snd] in E1.
    + destruct (IH (<[key := v]> acc) w1) as (n2 & E2 & F2).
      exists (n1 ++ n2). rewrite E2, E1, app_assoc.
      split; [reflexivity | apply Forall_app; auto].
    + exists (n1 ++ [ConsoleWarn (lit "Some NHSO fields could not be extracted:")]).
      cbn. rewrite E1, app_assoc.
      split; [reflexivity | apply Forall_app; split; [exact F1|]].
      constructor; [apply HP | constructor].
Qed.

Ltac allowed_leaf :=
  cbn [allowed]; first [exact I | reflexivity].

Lemma logDebug_allowed {S} message :
  emits (allowed options) (logDebug options message : M S unit).
Proof.
  unfold logDebug. destruct (debug options) eqn:Hd.
  - apply emits_effect. exact Hd.
  - apply emits_ret.
Qed.

Lemma handleReadError_allowed {S} error :
  emits (allowed options) (handleReadError options error : M S unit).
Proof.
  unfold handleReadError. cbv zeta.
  apply emits_bind; [emits_steps allowed_leaf | intros _].
  apply emits_bind; [emits_steps allowed_leaf | intros _].
  destruct (exitOnReadError options) eqn:Hx.
  - apply emits_bind; [emits_steps allowed_leaf | intros _].
    apply emits_effect. cbn. auto.
  - apply emits_ret.
Qed.

Lemma extractPhoto_allowed req : emits (allowed options) (extractPhoto E req).
Proof.
  unfold extractPhoto.
  apply emits_bind; [|intros; apply emits_ret].
  apply readPhotoParts_emits. intros bytes. exact I.
Qed.

Lemma extractNhsoData_allowed req :
  emits (allowed options) (extractNhsoData E req).
Proof.
  unfold extractNhsoData.
  apply assignUntilThrow_emits; [intros; exact I|].
  unfold nhsoAssignments.
  repeat (constructor; [cbn [snd]; emits_steps allowed_leaf|]).
  constructor.
Qed.

#[local] Hint Resolve logDebug_allowed handleReadError_allowed
  extractPhoto_allowed extractNhsoData_allowed : emits_db.

Lemma processCardData_allowed :
  emits (allowed options) (processCardData E options).
Proof. emits_steps allowed_leaf. Qed.

#[local] Hint Resolve processCardData_allowed : emits_db.

Lemma handler_allowed (sig : Signal E) :
  emits (allowed options) (handler options sig).
Proof. destruct sig; cbn [handler]; emits_steps allowed_leaf. Qed.

Lemma step_allowed (w : World Flags) (sig : Signal E) :
  Forall (allowed options) (trace w) ->
  Forall (allowed options) (trace (step options w sig)).
Proof.
  intros Hw. unfold step. destruct (exited w); [exact Hw|].
  destruct (handler_allowed sig w) as (new & Etr & Hnew).
  rewrite Etr. apply Forall_app. auto.
Qed.

(** Every effect of every run of a new reader is allowed. *)
Lemma run_allowed (sigs : list (Signal E)) :
  Forall (allowed options) (trace (run options newReader sigs)).
Proof.
  induction sigs as [|sig sigs IH] using rev_ind; [constructor|].
  rewrite run_snoc. apply step_allowed, IH.
Qed.

(** X12. In every run of a reader each notification carries the status of
    its name: 201 and 404 for the device notifications, 202, 200 and 205
    for a card inserted, read and removed, 500 for [card-error] (from a
    device or from a read), 400 for [card-incorrect]. *)
Theorem notification_status_follows_name (sigs : list (Signal E)) :
  Forall (fun notification =>
            status (snd notification) = statusOf (fst notification))
    (notifications (trace (run options newReader sigs))).
Proof.
  pose proof (run_allowed sigs) as Hall.
  induction Hall as [|e l He _ IH]; [constructor|].
  destruct e; cbn; try exact IH. constructor; [exact He | exact IH].
Qed.

(** X13. In every run of a reader the two options are the only gates: a
    [console.log] line is written only in debug mode, and the process is
    ended only with [exitOnReadError] set, and then with exit code 1. *)
Theorem options_gate_log_and_exit (sigs : list (Signal E)) :
  Forall (fun e =>
            match e with
            | ConsoleLog _ => debug options = true
            | ProcessExit code => code = 1%Z /\ exitOnReadError options = true
            | _ => True
            end)
    (trace (run options newReader sigs)).
Proof.
  eapply List.Forall_impl; [|apply run_allowed].
  intros [] H; solve [exact I | exact H].
Qed.

Lemma run_not_exited (sigs : list (Signal E)) :
  exitOnReadError options = false ->
  exited (run options newReader sigs) = false.
Proof.
  intros Hx. pose proof (run_allowed sigs) as Hall.
  unfold exited. induction Hall as [|e l He _ IH]; [reflexivity|].
  cbn [existsb]. rewrite IH, orb_false_r.
  destruct e; try reflexivity. cbn in He. destruct He as (_ & He).
  congruence.
Qed.

Lemma handleCardInserted_state (card : CardSt E) device (w : World Flags) :
  state (snd (handleCardInserted E options card device w))
  = {| isInitialized := isInitialized (state w); cardInserted := true |}.
Proof.
  unfold handleCardInserted. cbv zeta.
  set (message := lit "Thai National ID Card detected (ATR: " ++ _ ++ _).
  unfold setCardInserted. unfold bind, emit, effect, get, put, withCard.
  destruct (logDebug_run options message w) as (Hrun & Hst & _).
  rewrite Hrun. cbn -[processCardData logDebug lit].
  match goal with
  | |- context [processCardData E options ?x] =>
      destruct (processCardData E options x) as [r w']
  end.
  cbn [snd state]. rewrite Hst. reflexivity.
Qed.

Lemma step_flags (w : World Flags) (sig : Signal E) :
  exited w = false ->
  cardInserted (state (step options w sig))
  = match sig with
    | CardInserted _ _ _ => true
    | CardRemoved _ _ | DeviceDeactivated _ _ _ | CallDestroy _ => false
    | _ => cardInserted (state w)
    end
  /\ isInitialized (state (step options w sig))
     = match sig with
       | CallInit _ (Ok _) => true
       | CallDestroy _ => false
       | _ => isInitialized (state w)
       end.
Proof.
  intros Hlive. unfold step. rewrite Hlive.
  destruct sig as [[[]|e] | | device devices | device devices | error
                  | card device | name | event]; cbn [handler];
    try rewrite handleCardInserted_state;
    unfold init, destroy, resetState, handleDeviceConnected,
      handleDeviceDisconnected, handleDeviceError, handleCardError,
      handleCardRemoved, setCardInserted, setInitialized;
    unfold tryCatch, liftResult, bind, throw, ret, get, put, emit, logError,
      logDebug, effect;
    try destruct (isInitialized (state w)) eqn:Hi;
    try destruct (cardInserted (state w)) eqn:Hc;
    destruct (debug options); cbn; rewrite ?Hi, ?Hc; auto.
Qed.

(** X14. With [exitOnReadError] off, what [hasCardInserted] and [isReady]
    answer after any sequence of calls and driver events depends only on
    the kinds of the signals and on whether the driver started in each
    [init], not on the cards or on how the reads went: a card is in after
    an insertion until a removal, a device deactivation or [destroy]; the
    reader is ready from an [init] in which the driver started until
    [destroy], and an [init] in which the start of the driver throws
    leaves it as it was. *)
Theorem flags_follow_signals (sigs : list (Signal E)) :
  exitOnReadError options = false ->
  hasCardInserted (run options newReader sigs) = insertedAfter sigs
  /\ isReady (run options newReader sigs) = initializedAfter sigs.
Proof.
  intros Hx. unfold hasCardInserted, isReady.
  induction sigs as [|sig sigs (IHc & IHi)] using rev_ind; [split; reflexivity|].
  rewrite run_snoc.
  destruct (step_flags (run options newReader sigs) sig (run_not_exited sigs Hx))
    as (Hc & Hi).
  rewrite Hc, Hi, IHc, IHi.
  unfold insertedAfter, initializedAfter. rewrite !fold_left_app.
  split; reflexivity.
Qed.

End Allowed.

Lemma flags_follow_signals_witness :
  let options := {| exitOnReadError := false; debug := false |} in
  let started :=
    [CallInit scripted (Ok tt);
     CardInserted scripted (cardRefusing [apduPerson.CMD_CID]) None;
     CardError scripted (NonError (lit "unpowered"))] in
  let failed :=
    [CallInit scripted (Throw (Error (lit "No reader service")));
     CardInserted scripted (cardRefusing [apduPerson.CMD_CID]) None] in
  (hasCardInserted (run options newReader started) = true
   /\ isReady (run options newReader started) = true)
  /\ (hasCardInserted (run options newReader failed) = true
      /\ isReady (run options newReader failed) = false).
Proof.
  intros options started failed. split.
  - apply (flags_follow_signals scripted options started). reflexivity.
  - apply (flags_follow_signals scripted options failed). reflexivity.
Defined.

(** ** The notifications of an insertion *)

Section Insertion.

Context (E : Collaborators) (options : RequiredOptions).

Lemma extractPersonalData_has_personal_keys req d1 (w w1 : World (CardSt E)) :
  extractPersonalData E req ∅ w = (Ok d1, w1) ->
  forall key : string, In key personalKeys -> is_Some (d1 !! key).
Proof.
  intros H key Hin.
  apply extractPersonalData_Ok_inv in H as (p & Hp & ->).
  rewrite (right_id_L ∅ (∪)).
  rewrite (PersonalApplet_getInfo_keys E req _ p w w1 Hp key).
  split; [exact Hin|]. apply createFieldLookup_requested. exact Hin.
Qed.

(** A read cycle never throws and ends with exactly one notification: a
    [card-error], or a [card-data] whose record has the ten personal fields
    and [laserId]. *)
Lemma processCardData_outcome (w : World (CardSt E)) :
  exists outcome,
    fst (processCardData E options w) = Ok tt
    /\ notifications (trace (snd (processCardData E options w)))
       = notifications (trace w) ++ [outcome]
    /\ ((fst outcome = card_error /\ status (snd outcome) = 500%Z)
        \/ exists record,
             outcome = cardDataEvent record
             /\ (forall key : string,
                   In key personalKeys -> is_Some (record !! key))
             /\ is_Some (record !! "laserId"%string)).
Proof.
  set (req := determineRequestCommand E (state w)).
  destruct (extractPersonalData E req ∅ (cycleStart options w))
    as [[d1|e] w1] eqn:H1.
  - destruct (extractHealthData_returns E options req d1 w1)
      as (d2 & w2 & H2 & Hd2).
    destruct (extractLaserData_returns E options req d2 w2) as (v & w3 & H3).
    destruct (processCardData_success E options w w1 w2 w3 d1 d2 _ H1 H2 H3)
      as (Hok & Hnote).
    eexists. split; [exact Hok|]. split; [exact Hnote|].
    right. eexists. split; [reflexivity|]. split.
    + intros key Hin. apply lookup_insert_is_Some'. right.
      pose proof (extractPersonalData_has_personal_keys req d1 _ w1 H1 key Hin)
        as Hsome.
      destruct Hd2 as [-> | (nhsoData & ->)]; [exact Hsome|].
      apply lookup_insert_is_Some'. right. exact Hsome.
    + apply lookup_insert_is_Some'. left. reflexivity.
  - rewrite processCardData_run. cbv zeta. fold req. rewrite H1.
    destruct (handleReadError_notifications options e w1)
      as (ev & Hok & Hn & Hs).
    exists (card_error, ev). split; [exact Hok|]. split; [|left; auto].
    rewrite Hn. f_equal.
    pose proof (quiet_keeps_notifications (extractPersonalData E req ∅)
                  (cycleStart options w) (extractPersonalData_quiet E req ∅)) as Q1.
    rewrite H1 in Q1. cbn [snd] in Q1. rewrite Q1.
    apply cycleStart_notifications.
Qed.

(** X15. Every insertion event yields exactly two notifications, in this
    order: [card-inserted] with status 202 and the reset response as text,
    then either one [card-error] with status 500 or one [card-data] whose
    record has an entry for each of the ten personal fields and for
    [laserId]. *)
Theorem insertion_yields_two_notifications
    (card : CardSt E) (device : option jsstring) (w : World Flags) :
  let atr := utf8 E (getAtr E card) in
  let inserted :=
    {| status := 202;
       description := lit "Card Inserted";
       data := InsertedInfo
                 (lit "Thai National ID Card detected (ATR: " ++ atr ++ lit ")")
                 atr device |} in
  exists outcome,
    notifications (trace (snd (handleCardInserted E options card device w)))
    = notifications (trace w) ++ [(card_inserted, inserted); outcome]
    /\ ((fst outcome = card_error /\ status (snd outcome) = 500%Z)
        \/ exists record,
             outcome = cardDataEvent record
             /\ (forall key : string,
                   In key personalKeys -> is_Some (record !! key))
             /\ is_Some (record !! "laserId"%string)).
Proof.
  intros atr inserted. unfold handleCardInserted. cbv zeta.
  fold atr. fold inserted.
  set (message := lit "Thai National ID Card detected (ATR: " ++ _ ++ _).
  unfold setCardInserted. unfold bind, emit, effect, get, put, withCard.
  destruct (logDebug_run options message w) as (Hrun & _ & Hnote).
  rewrite Hrun. cbn -[processCardData logDebug lit].
  match goal with
  | |- context [processCardData E options ?x] =>
      destruct (processCardData_outcome x) as (outcome & _ & Hout & Hkind);
      destruct (processCardData E options x) as [r w']
  end.
  cbn [snd trace] in *. exists outcome. split; [|exact Hkind].
  rewrite Hout, notifications_app, Hnote, <- app_assoc. reflexivity.
Qed.

Lemma extractPersonalData_when_getInfo_throws req d e (w w1 : World (CardSt E)) :
  PersonalApplet_getInfo E req (Some personalKeys) w = (Throw e, w1) ->
  extractPersonalData E req d w
  = (Throw (Error (lit "Personal data extraction failed: " ++ messageOf e)),
     {| state := state w1;
        trace := trace w1
                 ++ [ConsoleError
                       (lit "[ThaiIdCardReader ERROR] "
                        ++ lit "Failed to read personal data")] |}).
Proof.
  intros H. unfold extractPersonalData, tryCatch. cbv zeta.
  change (List.filter _ ALL_FIELDS) with personalKeys.
  change (0 <? len personalKeys)%Z with true. cbv iota.
  unfold bind at 1. rewrite H. reflexivity.
Qed.

(** X16. When [PersonalApplet.getInfo] throws in a read cycle, the
    [card-error] notification names the cause through both wrappers: its
    message is [Failed to read Thai National ID Card: Personal data
    extraction failed: ] followed by the message of what was thrown
    ([Unknown error] for a value that is not an [Error]), and its error is
    the [Error] that [extractPersonalData] threw. *)
Theorem read_error_names_its_cause (w w1 : World (CardSt E)) (e : Thrown) :
  PersonalApplet_getInfo E (determineRequestCommand E (state w))
    (Some personalKeys) (cycleStart options w) = (Throw e, w1) ->
  let cause := lit "Personal data extraction failed: " ++ messageOf e in
  notifications (trace (snd (processCardData E options w)))
  = notifications (trace w)
    ++ [(card_error,
         {| status := 500;
            description := lit "Card Read Error";
            data := ErrorInfo
                      (lit "Failed to read Thai National ID Card: " ++ cause)
                      (Error cause) |})].
Proof.
  intros H cause. rewrite processCardData_run. cbv zeta.
  rewrite (extractPersonalData_when_getInfo_throws _ ∅ e _ w1 H).
  fold cause.
  pose proof (quiet_keeps_notifications
                (PersonalApplet_getInfo E (determineRequestCommand E (state w))
                   (Some personalKeys))
                (cycleStart options w)
                (PersonalApplet_getInfo_quiet E _ _)) as Q.
  rewrite H, cycleStart_notifications in Q. cbn [snd] in Q.
  unfold handleReadError, logError, emit, effect, bind, ret.
  destruct (exitOnReadError options); cbn [snd trace state messageOf];
    rewrite !notifications_app, Q; unfold notifications at 2 3 4 5;
    cbn [flat_map app]; rewrite ?app_nil_r; reflexivity.
Qed.

End Insertion.

Lemma read_error_names_its_cause_witness :
  let options := {| exitOnReadError := false; debug := false |} in
  let w := onCard (cardRefusing [apduPerson.CMD_GENDER]) in
  let cause := lit "Personal data extraction failed: "
               ++ messageOf (Error (lit "Card rejected the command")) in
  notifications (trace (snd (processCardData scripted options w)))
  = notifications (trace w)
    ++ [(card_error,
         {| status := 500;
            description := lit "Card Read Error";
            data := ErrorInfo
                      (lit "Failed to read Thai National ID Card: " ++ cause)
                      (Error cause) |})].
Proof.
  intros options w.
  set (r := PersonalApplet_getInfo scripted (determineRequestCommand scripted (state w))
              (Some personalKeys) (cycleStart options w)).
  exact (read_error_names_its_cause scripted options w (snd r)
           (Error (lit "Card rejected the command"))
           ltac:(vm_compute; reflexivity)).
Defined.

(** ** Dates: shape of the result and failure *)

Lemma yearsHaveFourDigits_spec (n : nat) (y0 : Z) :
  yearsHaveFourDigits n y0 = true ->
  forall y, (y0 <= y < y0 + Z.of_nat n)%Z ->
            List.length (numberToString (Int y)) = 4%nat.
Proof.
  revert y0. induction n as [|n IH]; intros y0 Hall y Hy; [lia|].
  cbn [yearsHaveFourDigits] in Hall. apply andb_true_iff in Hall as (H0 & Hrest).
  destruct (Z.eq_dec y y0) as [->|Hne]; [apply Nat.eqb_eq, H0|].
  apply (IH (y0 + 1)%Z Hrest). lia.
Qed.

Lemma four_digit_years : yearsHaveFourDigits (Z.to_nat 9000) 1000 = true.
Proof. vm_compute. reflexivity. Qed.

Lemma numberToString_four_digits (y : Z) :
  (1000 <= y <= 9999)%Z -> List.length (numberToString (Int y)) = 4%nat.
Proof.
  intros Hy.
  apply (yearsHaveFourDigits_spec (Z.to_nat 9000) 1000 four_digit_years).
  rewrite Z2Nat.id by lia. lia.
Qed.

Lemma decimalValue_four_digits (a b c d : N) :
  forallb isDigit [a; b; c; d] = true ->
  (0 <= decimalValue [a; b; c; d] <= 9999)%Z.
Proof.
  cbn [forallb]. unfold isDigit. rewrite !andb_true_iff, !N.leb_le.
  unfold decimalValue. cbn [fold_left]. lia.
Qed.

(** X17. For a date of eight digits whose Buddhist year is 1543 or later,
    both converters return the same ten characters: four for the year, a
    hyphen, the two month characters, a hyphen, the two day characters. *)
Theorem date_converters_give_ten_characters (D : jsstring) :
  List.length D = 8%nat ->
  forallb isDigit D = true ->
  (1543 <= decimalValue (firstn 4 D))%Z ->
  exists year,
    List.length year = 4%nat
    /\ convertBuddhistDate D
       = year ++ [45%N] ++ firstn 2 (skipn 4 D) ++ [45%N] ++ skipn 6 D
    /\ List.length (convertBuddhistDate D) = 10%nat
    /\ convertBuddhistToGregorianDate D = Ok (convertBuddhistDate D).
Proof.
  intros Hlen Hdig Hyear.
  destruct (eight_characters D Hlen) as (Hl & S1 & S2 & S3 & T1 & T2 & T3).
  destruct D as [|a [|b [|c [|d [|m1 [|m2 [|d1 [|d2 [|x D]]]]]]]]];
    try discriminate Hlen.
  assert (Hy4 : forallb isDigit [a; b; c; d] = true).
  { cbn [forallb] in *. rewrite !andb_true_iff in *. tauto. }
  pose proof (decimalValue_four_digits a b c d Hy4) as Hbound.
  cbn [firstn] in Hyear.
  exists (numberToString (Int (decimalValue [a; b; c; d] - 543))).
  assert (Hfour := numberToString_four_digits
                     (decimalValue [a; b; c; d] - 543) ltac:(lia)).
  assert (Hnhso : convertBuddhistDate [a; b; c; d; m1; m2; d1; d2]
                  = numberToString (Int (decimalValue [a; b; c; d] - 543))
                    ++ [45%N] ++ [m1; m2] ++ [45%N] ++ [d1; d2]).
  { unfold convertBuddhistDate. rewrite Hl, T1, T2, T3.
    cbn [Z.eqb Pos.eqb negb orb firstn skipn].
    rewrite parseInt_digits by (auto; discriminate). reflexivity. }
  split; [exact Hfour|]. split; [exact Hnhso|]. split.
  - rewrite Hnhso, !length_app, Hfour. reflexivity.
  - rewrite Hnhso. unfold convertBuddhistToGregorianDate.
    rewrite Hl, S1, S2, S3. cbn [Z.eqb Pos.eqb negb firstn skipn].
    rewrite parseInt_digits by (auto; discriminate). reflexivity.
Qed.

Lemma date_converters_give_ten_characters_witness :
  exists year,
    List.length year = 4%nat
    /\ convertBuddhistDate (lit "24991231")
       = year ++ [45%N] ++ firstn 2 (skipn 4 (lit "24991231")) ++ [45%N]
         ++ skipn 6 (lit "24991231")
    /\ List.length (convertBuddhistDate (lit "24991231")) = 10%nat
    /\ convertBuddhistToGregorianDate (lit "24991231")
       = Ok (convertBuddhistDate (lit "24991231")).
Proof.
  apply (date_converters_give_ten_characters (lit "24991231")).
  - reflexivity.
  - reflexivity.
  - vm_compute. discriminate.
Defined.

(** X18. The converters fail exactly on the strings whose length is not 8:
    the insurance converter returns the empty string for these strings and
    for no other, the personal converter throws for these strings and for no
    other, whatever the eight characters are. *)
Theorem date_converters_fail_exactly_on_other_lengths (s : jsstring) :
  (convertBuddhistDate s = [] <-> List.length s <> 8%nat)
  /\ ((exists e, convertBuddhistToGregorianDate s = Throw e)
      <-> List.length s <> 8%nat).
Proof.
  destruct (Nat.eq_dec (List.length s) 8) as [Hlen | Hlen].
  - destruct (eight_characters s Hlen) as (Hl & _).
    unfold convertBuddhistDate, convertBuddhistToGregorianDate. rewrite Hl.
    cbn [Z.eqb Pos.eqb negb orb]. change (lit "-") with [45%N].
    split; split; try (intros H; contradiction).
    + intros H. apply app_eq_nil in H as (_ & H). discriminate H.
    + intros (e & H). discriminate H.
  - assert (Hne : (len s =? 8)%Z = false)
      by (apply Z.eqb_neq; unfold len; lia).
    unfold convertBuddhistDate, convertBuddhistToGregorianDate.
    rewrite Hne, orb_true_r. cbn [negb].
    split; split; auto. intros _. eexists. reflexivity.
Qed.

(** ** The catalogue as a map of the card memory *)

Lemma ascending_head (a : list byte) (l : list (list byte)) :
  ascending (a :: l) = true ->
  forall b, In b l -> (readOffset a + readLength a <= readOffset b)%N.
Proof.
  revert a. induction l as [|c l IH]; intros a Hasc b Hin; [destruct Hin|].
  cbn [ascending] in Hasc. apply andb_true_iff in Hasc as (Hac & Hrest).
  apply N.leb_le in Hac. destruct Hin as [<- | Hin]; [exact Hac|].
  specialize (IH c Hrest b Hin). lia.
Qed.

Lemma ascending_tail (a : list byte) (l : list (list byte)) :
  ascending (a :: l) = true -> ascending l = true.
Proof.
  destruct l as [|b l]; [reflexivity|]. cbn [ascending].
  intros H. apply andb_true_iff in H. tauto.
Qed.

Lemma ascending_pairwise (l : list (list byte)) :
  ascending l = true ->
  forall i j a b,
    (i < j)%nat -> nth_error l i = Some a -> nth_error l j = Some b ->
    (readOffset a + readLength a <= readOffset b)%N.
Proof.
  induction l as [|c l IH]; intros Hasc i j a b Hij Hi Hj.
  - destruct i; discriminate Hi.
  - destruct j as [|j]; [lia|]. cbn [nth_error] in Hj. destruct i as [|i].
    + injection Hi as <-. eapply ascending_head; eauto.
      eapply nth_error_In; eauto.
    + cbn [nth_error] in Hi.
      apply (IH (ascending_tail _ _ Hasc) i j a b); [lia | assumption..].
Qed.

(** X19. The read commands address the card memory without overlap: in the
    personal applet (identifier, names, birth, gender, issuer, dates, the
    twenty photo segments, address) and in the insurance applet every
    region ends before a later one begins; and the photo segments are 255
    bytes each, one after the other from offset [0x017b]. *)
Theorem catalogue_regions_do_not_overlap :
  (forall i j a b,
     (i < j)%nat ->
     nth_error personalReads i = Some a -> nth_error personalReads j = Some b ->
     (readOffset a + readLength a <= readOffset b)%N)
  /\ (forall i j a b,
        (i < j)%nat ->
        nth_error nhsoReads i = Some a -> nth_error nhsoReads j = Some b ->
        (readOffset a + readLength a <= readOffset b)%N)
  /\ (forall k command,
        nth_error photoCommands k = Some command ->
        readOffset command = (379 + 255 * N.of_nat k)%N
        /\ readLength command = 255%N).
Proof.
  split; [|split].
  - apply ascending_pairwise. vm_compute. reflexivity.
  - apply ascending_pairwise. vm_compute. reflexivity.
  - intros k command Hk.
    do 20 (destruct k as [|k];
           [injection Hk as <-; vm_compute; split; reflexivity|]).
    destruct k; discriminate Hk.
Qed.

Lemma catalogue_regions_do_not_overlap_witness :
  (readOffset apduPerson.CMD_PHOTO20 + readLength apduPerson.CMD_PHOTO20
   <= readOffset apduPerson.CMD_ADDRESS)%N
  /\ readOffset apduPerson.CMD_PHOTO20 = (379 + 255 * 19)%N.
Proof.
  destruct catalogue_regions_do_not_overlap as (Hpersonal & _ & Hphoto).
  split.
  - apply (Hpersonal 27%nat 28%nat); [lia | reflexivity | reflexivity].
  - apply (Hphoto 19%nat apduPerson.CMD_PHOTO20). reflexivity.
Defined.

(** ** A malformed date on the card *)

Section MalformedDate.

Context (E : Collaborators).

(** X20. The same malformed date response has two fates: when the text of
    a response, without its last two bytes and trimmed, has a length other
    than 8, the personal read of the birth date throws [Invalid date
    format: ...], which fails the whole personal read, while the insurance
    read of a date returns the empty string, so the field is present and
    empty. *)
Theorem malformed_date_on_the_card (req command : list byte)
    (w w1 w2 : World (CardSt E)) (response : Buffer) :
  let text := trim (utf8 E (slice response 0 (-2))) in
  List.length text <> 8%nat ->
  getData E apduPerson.CMD_BIRTH req w = (Ok response, w1) ->
  getData E command req w = (Ok response, w2) ->
  extractDateOfBirth E req w
  = (Throw (Error (lit "Invalid date format: " ++ text
                   ++ lit ". Expected YYYYMMDD.")), w1)
  /\ readDate E req command w = (Ok [], w2).
Proof.
  intros text Hlen Hbirth Hdate.
  assert (Hne : (len text =? 8)%Z = false)
    by (apply Z.eqb_neq; unfold len; lia).
  split.
  - unfold extractDateOfBirth. rewrite (bind_Ok _ _ _ _ _ Hbirth).
    cbv zeta. fold text. unfold convertBuddhistToGregorianDate.
    rewrite Hne. reflexivity.
  - unfold readDate. rewrite (bind_Ok _ _ _ _ _ Hdate).
    fold text. unfold convertBuddhistDate.
    rewrite Hne, orb_true_r. reflexivity.
Qed.

End MalformedDate.

Lemma malformed_date_on_the_card_witness :
  let w := onCard (cardAnswering [x90; x00]) in
  let req := [x00; xc0; x00; x00] in
  let text := trim (utf8 scripted (slice [x90; x00] 0 (-2))) in
  extractDateOfBirth scripted req w
  = (Throw (Error (lit "Invalid date format: " ++ text
                   ++ lit ". Expected YYYYMMDD.")),
     snd (getData scripted apduPerson.CMD_BIRTH req w))
  /\ readDate scripted req apduNhso.CMD_ISSUE_DATE w
     = (Ok [], snd (getData scripted apduNhso.CMD_ISSUE_DATE req w)).
Proof.
  intros w req.
  exact (malformed_date_on_the_card scripted req apduNhso.CMD_ISSUE_DATE w
           (snd (getData scripted apduPerson.CMD_BIRTH req w))
           (snd (getData scripted apduNhso.CMD_ISSUE_DATE req w))
           [x90; x00]
           ltac:(vm_compute; discriminate)
           ltac:(vm_compute; reflexivity)
           ltac:(vm_compute; reflexivity)).
Defined.

(** ** Removal signals that find no card *)

Lemma removedOncePerInsertion_app (shown : bool) (a b : list EventName) :
  removedOncePerInsertion shown (a ++ b)
  = removedOncePerInsertion shown a
    && removedOncePerInsertion (cardShown shown a) b.
Proof.
  revert shown. induction a as [|name a IH]; intros shown; [reflexivity|].
  destruct name; cbn; rewrite ?IH; try reflexivity.
  rewrite andb_assoc. reflexivity.
Qed.

Lemma removedOncePerInsertion_without_removal (shown : bool) names :
  ~ In card_removed names -> removedOncePerInsertion shown names = true.
Proof.
  revert shown. induction names as [|name names IH]; intros shown Hno;
    [reflexivity|].
  destruct name; cbn; try (apply IH; intros H; apply Hno; right; exact H).
  destruct Hno. left. reflexivity.
Qed.

Lemma cardShown_without_removal (shown : bool) names :
  ~ In card_removed names ->
  shown = true \/ In card_inserted names ->
  cardShown shown names = true.
Proof.
  revert shown. induction names as [|name names IH]; intros shown Hno Hyes.
  - destruct Hyes as [H | []]. exact H.
  - assert (Hno' : ~ In card_removed names)
      by (intros H; apply Hno; right; exact H).
    destruct name; cbn;
      try (apply IH; [exact Hno'|];
           destruct Hyes as [H | [H | H]];
           solve [auto | discriminate H]).
    destruct Hno. left. reflexivity.
Qed.

(** Between two [card-removed] of a checked list there is a
    [card-inserted]. *)
Lemma removedOncePerInsertion_after_removal (shown : bool) a rest :
  removedOncePerInsertion shown (a ++ card_removed :: rest) = true ->
  removedOncePerInsertion false rest = true.
Proof.
  revert shown. induction a as [|name a IH]; intros shown H.
  - cbn in H. apply andb_true_iff in H. tauto.
  - destruct name; cbn in H; try exact (IH _ H).
    apply andb_true_iff in H. exact (IH _ (proj2 H)).
Qed.

Lemma removedOncePerInsertion_next_removal b c :
  removedOncePerInsertion false (b ++ card_removed :: c) = true ->
  In card_inserted b.
Proof.
  induction b as [|name b IH]; intros H; [discriminate H|].
  destruct name; cbn in H; try (right; exact (IH H)).
  - left. reflexivity.
  - discriminate H.
Qed.

Lemma In_notification_names name (tr : list Effect) :
  In name (map fst (notifications tr)) <-> exists ev, In (Emit name ev) tr.
Proof.
  induction tr as [|e tr IH].
  - split; [intros [] | intros (ev & [])].
  - split.
    + intros H. destruct e as [| name' ev' | | | |];
        try (apply IH in H as (ev & H); exists ev; right; exact H).
      cbn in H. destruct H as [<- | H].
      * exists ev'. left. reflexivity.
      * apply IH in H as (ev & H). exists ev. right. exact H.
    + intros (ev & [-> | H]).
      * left. reflexivity.
      * assert (Hin : In name (map fst (notifications tr)))
          by (apply IH; exists ev; exact H).
        destruct e; cbn; auto.
Qed.

Section RemovalAgain.

Context (E : Collaborators) (options : RequiredOptions).

Lemma step_CardRemoved_without_card (w : World Flags) name :
  cardInserted (state w) = false -> step options w (CardRemoved E name) = w.
Proof.
  intros Hflag. unfold step. destruct (exited w); [reflexivity|].
  cbn [handler]. unfold handleCardRemoved, bind, get. rewrite Hflag.
  reflexivity.
Qed.

Lemma step_flag_cleared (w : World Flags) (sig : Signal E) :
  clearsCard sig = true ->
  exited w = false ->
  cardInserted (state (step options w sig)) = false.
Proof.
  intros Hkind Hlive.
  destruct (step_flags E options w sig Hlive) as (Hc & _).
  rewrite Hc. destruct sig; solve [reflexivity | discriminate Hkind].
Qed.

Lemma step_exited (w : World Flags) (sig : Signal E) :
  exited w = true -> step options w sig = w.
Proof. intros H. unfold step. rewrite H. reflexivity. Qed.

Lemma run_exited (w : World Flags) (sigs : list (Signal E)) :
  exited w = true -> run options w sigs = w.
Proof.
  intros H. induction sigs as [|sig sigs IH] using rev_ind; [reflexivity|].
  rewrite run_snoc, IH. apply step_exited, H.
Qed.

(** Without an insertion signal the flag stays cleared. *)
Lemma run_without_insertion (w : World Flags) (sigs : list (Signal E)) :
  forallb (fun sig => negb (insertsCard sig)) sigs = true ->
  cardInserted (state w) = false ->
  cardInserted (state (run options w sigs)) = false.
Proof.
  intros Hsigs Hflag.
  induction sigs as [|sig sigs IH] using rev_ind; [exact Hflag|].
  rewrite forallb_app in Hsigs. apply andb_true_iff in Hsigs as (Hs & Hsig).
  rewrite run_snoc. specialize (IH Hs).
  destruct (exited (run options w sigs)) eqn:Hlive.
  - rewrite step_exited by exact Hlive. exact IH.
  - destruct (step_flags E options _ sig Hlive) as (Hc & _).
    rewrite Hc. destruct sig; solve [reflexivity | exact IH | discriminate Hsig].
Qed.

(** One signal: the names of the notifications it adds are a single
    [card-removed], with the flag set before and cleared after, or they
    have no [card-removed]. *)
Lemma step_names (w : World Flags) (sig : Signal E) :
  exists names,
    map fst (notifications (trace (step options w sig)))
    = map fst (notifications (trace w)) ++ names
    /\ ((names = [card_removed]
         /\ cardInserted (state w) = true
         /\ cardInserted (state (step options w sig)) = false)
        \/ (~ In card_removed names
            /\ (cardInserted (state (step options w sig)) = true ->
                cardInserted (state w) = true \/ In card_inserted names))).
Proof.
  destruct (step_effects E options w sig) as (new & Etr & Hrem & Hflag).
  destruct (clearsCard sig && cardInserted (state w)
            && negb (exited w)
            && match sig with CardRemoved _ _ => true | _ => false end)
    eqn:Hcase.
  - (* a removal signal that finds the flag set *)
    destruct sig as [| | | | | | name |]; try (rewrite andb_false_r in Hcase;
                                               discriminate Hcase).
    apply andb_true_iff in Hcase as (Hcase & _).
    apply andb_true_iff in Hcase as (Hcase & Hlive).
    apply andb_true_iff in Hcase as (_ & Hset).
    apply negb_true_iff in Hlive.
    exists [card_removed]. unfold step. rewrite Hlive. cbn [handler].
    unfold handleCardRemoved, setCardInserted, bind, get, put, emit, effect,
      logDebug.
    rewrite Hset.
    destruct (debug options); cbn -[notifications lit];
      rewrite !notifications_app, !map_app; cbn; rewrite ?app_nil_r;
      (split; [reflexivity | left; auto]).
  - exists (map fst (notifications new)).
    rewrite Etr, notifications_app, map_app. split; [reflexivity|]. right.
    split.
    + intros Hin. apply In_notification_names in Hin.
      destruct (Hrem Hin) as ((name & ->) & Hset & _).
      assert (Hlive : exited w = false).
      { destruct (exited w) eqn:Hx; [|reflexivity].
        rewrite step_exited in Etr by exact Hx.
        rewrite <- (app_nil_r (trace w)) in Etr at 1.
        apply app_inv_head in Etr. subst new.
        destruct Hin as (ev & []). }
      cbn in Hcase. rewrite Hset, Hlive in Hcase. discriminate Hcase.
    + intros Hset. destruct (Hflag Hset) as [Hold | Hins]; [left; exact Hold|].
      right. apply In_notification_names. exact Hins.
Qed.

(** In every run of a new reader the names of the notifications are
    checked, and while the flag is set a [card-inserted] is the last of the
    two kinds. *)
Lemma run_names (sigs : list (Signal E)) :
  let w := run options newReader sigs in
  let names := map fst (notifications (trace w)) in
  removedOncePerInsertion false names = true
  /\ (cardInserted (state w) = true -> cardShown false names = true).
Proof.
  induction sigs as [|sig sigs IH] using rev_ind; cbv zeta.
  - split; [reflexivity | discriminate].
  - rewrite run_snoc. cbv zeta in IH. destruct IH as (IHc & IHs).
    set (w := run options newReader sigs) in *.
    destruct (step_names w sig) as (names & -> & [(-> & Hset & Hclear) | (Hno & Hflag)]).
    + rewrite removedOncePerInsertion_app, IHc. cbn.
      rewrite (IHs Hset), Hclear. split; [reflexivity | discriminate].
    + rewrite removedOncePerInsertion_app, IHc.
      rewrite removedOncePerInsertion_without_removal by exact Hno.
      split; [reflexivity|].
      intros Hset. unfold cardShown. rewrite fold_left_app.
      apply cardShown_without_removal; [exact Hno|].
      destruct (Hflag Hset) as [Hold | Hin]; auto.
Qed.

(** X21. [card-removed] is emitted at most once per insertion. In every run
    of a new reader, every [card-removed] notification follows a
    [card-inserted] notification with no other [card-removed] between the
    two, so between two [card-removed] notifications there is a
    [card-inserted] one. And from any state, a removal signal that comes
    after a removal signal, a device deactivation or [destroy], with any
    signals but an insertion in between, changes nothing and emits
    nothing. *)
Theorem card_removed_once_per_insertion (sigs : list (Signal E)) :
  let names := map fst (notifications (trace (run options newReader sigs))) in
  removedOncePerInsertion false names = true
  /\ (forall a b c,
        names = a ++ card_removed :: b ++ card_removed :: c ->
        In card_inserted b)
  /\ (forall (w : World Flags) (sig : Signal E) (between : list (Signal E))
             (name : option jsstring),
        clearsCard sig = true ->
        forallb (fun s => negb (insertsCard s)) between = true ->
        let w' := run options (step options w sig) between in
        step options w' (CardRemoved E name) = w').
Proof.
  intros names. destruct (run_names sigs) as (Hchecked & _). fold names in Hchecked.
  split; [exact Hchecked|]. split.
  - intros a b c Heq. rewrite Heq in Hchecked.
    apply removedOncePerInsertion_after_removal in Hchecked.
    exact (removedOncePerInsertion_next_removal b c Hchecked).
  - intros w sig between name Hkind Hbetween w'.
    destruct (exited w) eqn:Hlive.
    + assert (Hw' : w' = w).
      { unfold w'. rewrite step_exited by exact Hlive.
        apply run_exited, Hlive. }
      rewrite Hw'. apply step_exited, Hlive.
    + apply step_CardRemoved_without_card.
      apply run_without_insertion; [exact Hbetween|].
      apply step_flag_cleared; assumption.
Qed.

End RemovalAgain.

Lemma card_removed_once_per_insertion_witness :
  let options := {| exitOnReadError := false; debug := true |} in
  let card := cardRefusing [apduPerson.CMD_CID] in
  let sigs :=
    [CardInserted scripted card None;
     CardRemoved scripted None;
     DeviceError scripted (Error []);
     CardRemoved scripted (Some (lit "Reader 0"))] in
  map fst (notifications (trace (run options newReader sigs)))
  = [card_inserted; card_error; card_removed; card_error]
  /\ (let w' := run options
                  (step options
                     (run options newReader [CardInserted scripted card None])
                     (CardRemoved scripted None))
                  [DeviceError scripted (Error [])] in
      step options w' (CardRemoved scripted (Some (lit "Reader 0"))) = w').
Proof.
  intros options card sigs.
  destruct (card_removed_once_per_insertion scripted options sigs)
    as (_ & _ & Hignored).
  split.
  - vm_compute. reflexivity.
  - exact (Hignored (run options newReader [CardInserted scripted card None])
             (CardRemoved scripted None)
             [DeviceError scripted (Error [])]
             (Some (lit "Reader 0")) eq_refl eq_refl).
Defined.
